(** * The watch-list page of [script.js], embedded and verified

    The page keeps an array [movies] of records, two view settings and a few
    DOM sinks.  The embedding follows [script.js] function by function:
    the built-ins it calls live in [Module JS], the page state is a record
    threaded through a small state monad, and the event listeners become a
    step function over events.

    Modelling notes.
    - A string is a sequence of UTF-16 code units, each a number; string
      literals of the script are written [lit "..."].
    - White space is the set the language gives to [trim] and to [Number]:
      the characters of WhiteSpace and LineTerminator.
    - [toUpperCase] and [toLowerCase] are the engine's, driven by the Unicode
      tables; like [Math.random] they are taken from the host.  The one fact
      fixed about them is that the empty string lowercases to the empty
      string; what else a proof needs of them is a hypothesis of its
      theorem.  [Math.random] is an oracle indexed by the number of calls
      made so far.
    - A number is an IEEE binary64 value ([spec_float] at precision 53).
    - Every record of [movies] is a distinct object (each comes from its own
      object literal and nothing else keeps a handle on it), so the array is
      a list of record values and [m.watched = !m.watched] rewrites the slot
      that holds [m]. *)

From Stdlib Require Import ZArith NArith List String Ascii Bool Arith Lia.
From Stdlib Require Import SpecFloat.
Import ListNotations.
Local Open Scope list_scope.

(** ** Built-ins of the language *)

Module JS.

(** *** Strings *)

Definition str := list N.

(** The code unit of an ASCII character, and the string of an ASCII
    literal. *)
Definition code (a : ascii) : N := N_of_ascii a.

Definition lit (s : string) : str := map N_of_ascii (list_ascii_of_string s).

(** [s === t] on strings. *)
Fixpoint eqs (s t : str) : bool :=
  match s, t with
  | [], [] => true
  | c :: s', d :: t' => N.eqb c d && eqs s' t'
  | _, _ => false
  end.

(** WhiteSpace and LineTerminator: TAB, LF, VT, FF, CR, SP, NBSP, U+1680,
    U+2000 to U+200A, LS, PS, U+202F, U+205F, U+3000 and U+FEFF. *)
Definition isWhiteSpace (c : N) : bool :=
  ((9 <=? c) && (c <=? 13) || (c =? 32) || (c =? 160) || (c =? 5760)
   || (8192 <=? c) && (c <=? 8202) || (c =? 8232) || (c =? 8233)
   || (c =? 8239) || (c =? 8287) || (c =? 12288) || (c =? 65279))%N.

Definition isSpace (c : N) : bool := N.eqb c 32.

(** [!!s] for a string [s]. *)
Definition truthyString (s : str) : bool :=
  match s with [] => false | _ => true end.

Fixpoint trimStart (s : str) : str :=
  match s with
  | [] => []
  | c :: r => if isWhiteSpace c then trimStart r else s
  end.

Fixpoint trimEnd (s : str) : str :=
  match s with
  | [] => []
  | c :: r =>
      match trimEnd r with
      | [] => if isWhiteSpace c then [] else [c]
      | r' => c :: r'
      end
  end.

Definition trim (s : str) : str := trimEnd (trimStart s).

Fixpoint startsWith (sub s : str) : bool :=
  match sub with
  | [] => true
  | a :: sub' =>
      match s with
      | [] => false
      | b :: s' => N.eqb a b && startsWith sub' s'
      end
  end.

(** [s.includes(sub)] *)
Fixpoint includes (s sub : str) : bool :=
  startsWith sub s ||
  match s with
  | [] => false
  | _ :: r => includes r sub
  end.

(** [s.split(sep)] for a one-character separator: the scanner collects the
    current piece in [cur], last character first, and closes it at every
    separator and at the end. *)
Fixpoint splitFrom (sep : N) (cur : str) (s : str) : list str :=
  match s with
  | [] => [rev cur]
  | c :: r =>
      if N.eqb c sep then rev cur :: splitFrom sep [] r
      else splitFrom sep (c :: cur) r
  end.

Definition split (sep : N) (s : str) : list str := splitFrom sep [] s.

(** [ws.join(sep)] *)
Fixpoint join (sep : str) (ws : list str) : str :=
  match ws with
  | [] => []
  | [w] => w
  | w :: rest => w ++ sep ++ join sep rest
  end.

(** [s.slice(a, b)] for indices [0 <= a <= b]. *)
Definition slice (a b : nat) (s : str) : str := firstn (b - a) (skipn a s).

(** [s.slice(a)] for an index [0 <= a]. *)
Definition sliceFrom (a : nat) (s : str) : str := skipn a s.

(** [s[0]]: [None] stands for [undefined]. *)
Definition charAt0 (s : str) : option str :=
  match s with
  | [] => None
  | c :: _ => Some [c]
  end.

(** Length of the run of spaces a string starts with. *)
Fixpoint leadingSpaces (s : str) : nat :=
  match s with
  | c :: r => if isSpace c then S (leadingSpaces r) else 0
  | [] => 0
  end.

(** [s.replace(/ {2,}/g, " ")]: the scanner tries the pattern at every
    position from the left; a match takes the whole run (the quantifier is
    greedy), is replaced by one space, and scanning resumes after it.
    [skip] counts the characters of the current match still to pass. *)
Fixpoint replaceRuns (skip : nat) (s : str) : str :=
  match s with
  | [] => []
  | c :: r =>
      match skip with
      | S k => replaceRuns k r
      | 0 =>
          let n := leadingSpaces s in
          if (2 <=? n)%nat then 32%N :: replaceRuns (n - 1) r
          else c :: replaceRuns 0 r
      end
  end.

Definition replaceSpaceRuns (s : str) : str := replaceRuns 0 s.

(** *** Numbers *)

Definition number := spec_float.

Definition prec : Z := 53.
Definition emax : Z := 1024.

Definition NaN : number := S754_nan.

Definition ofZ (n : Z) : number := binary_normalize prec emax n 0 false.

(** [!!x] for a number [x]: false on [+0], [-0] and [NaN]. *)
Definition truthyNumber (x : number) : bool :=
  match x with
  | S754_zero _ | S754_nan => false
  | _ => true
  end.

Definition lt (x y : number) : bool := SFltb x y.
Definition gt (x y : number) : bool := SFltb y x.
Definition le (x y : number) : bool := SFleb x y.
Definition eqNumber (x y : number) : bool := SFeqb x y.

(** An integral value: the binary expansion has no fractional bit. *)
Definition isInteger (x : number) : bool :=
  match x with
  | S754_zero _ => true
  | S754_finite _ m e =>
      (0 <=? e)%Z || (Z.modulo (Zpos m) (2 ^ (- e)) =? 0)%Z
  | _ => false
  end.

(** [Math.floor] of a finite value, as an integer. *)
Definition floorZ (x : number) : option Z :=
  match x with
  | S754_zero _ => Some 0%Z
  | S754_finite s m e =>
      let v := if s then Zneg m else Zpos m in
      Some (if (0 <=? e)%Z then v * 2 ^ e else v / 2 ^ (- e))%Z
  | _ => None
  end.

(** The value [m * 10^e] (negated when [neg]) rounded to the nearest
    binary64 number, ties to even. *)
Definition decimalToNumber (neg : bool) (m e : Z) : number :=
  match m with
  | Z0 => S754_zero neg
  | Zneg _ => S754_nan
  | Zpos _ =>
      if (0 <=? e)%Z then
        binary_normalize prec emax ((if neg then - m else m) * 10 ^ e) 0 false
      else
        let '(q, e', l) := SFdiv_core_binary prec emax m 0 (10 ^ (- e)) 0 in
        binary_round_aux prec emax neg q e' l
  end.

Definition isDigit (c : N) : bool := ((48 <=? c) && (c <=? 57))%N.

Definition digitValue (c : N) : option Z :=
  if ((48 <=? c) && (c <=? 57))%N then Some (Z.of_N (c - 48))
  else if ((97 <=? c) && (c <=? 102))%N then Some (Z.of_N (c - 87))
  else if ((65 <=? c) && (c <=? 70))%N then Some (Z.of_N (c - 55))
  else None.

(** Value of a digit string in a base; [None] when a character is not a
    digit of that base.  The empty string has value [acc]. *)
Fixpoint digitsValue (base acc : Z) (s : str) : option Z :=
  match s with
  | [] => Some acc
  | c :: r =>
      match digitValue c with
      | Some d =>
          if (d <? base)%Z then digitsValue base (acc * base + d) r
          else None
      | None => None
      end
  end.

(** Longest prefix of decimal digits, and the rest. *)
Fixpoint spanDigits (s : str) : str * str :=
  match s with
  | c :: r =>
      if isDigit c then let '(ds, rest) := spanDigits r in (c :: ds, rest)
      else ([], s)
  | [] => ([], [])
  end.

(** An optional sign: whether it is a minus, and the rest. *)
Definition takeSign (s : str) : bool * str :=
  match s with
  | c :: r =>
      if N.eqb c (code "-") then (true, r)
      else if N.eqb c (code "+") then (false, r)
      else (false, s)
  | [] => (false, [])
  end.

(** [ExponentPart], optional: the decimal exponent it denotes. *)
Definition parseExponent (s : str) : option Z :=
  match s with
  | [] => Some 0%Z
  | c :: r =>
      if N.eqb c (code "e") || N.eqb c (code "E") then
        let '(neg, ds) := takeSign r in
        match ds with
        | [] => None
        | _ => match digitsValue 10 0 ds with
               | Some v => Some (if neg then - v else v)%Z
               | None => None
               end
        end
      else None
  end.

(** [StrUnsignedDecimalLiteral] without [Infinity]: mantissa and decimal
    exponent. *)
Definition parseUnsignedDecimal (s : str) : option (Z * Z) :=
  let '(ip, r1) := spanDigits s in
  let '(fp, r2) :=
    match r1 with
    | c :: r => if N.eqb c (code ".") then spanDigits r else ([], r1)
    | [] => ([], r1)
    end in
  match ip ++ fp with
  | [] => None
  | ds =>
      match digitsValue 10 0 ds, parseExponent r2 with
      | Some m, Some e => Some (m, (e - Z.of_nat (List.length fp))%Z)
      | _, _ => None
      end
  end.

(** [NonDecimalIntegerLiteral]: [0x], [0o] and [0b] forms. *)
Definition parseNonDecimal (s : str) : option Z :=
  match s with
  | z :: c :: ds =>
      if N.eqb z (code "0") then
        let base :=
          if N.eqb c (code "x") || N.eqb c (code "X") then Some 16%Z
          else if N.eqb c (code "o") || N.eqb c (code "O") then Some 8%Z
          else if N.eqb c (code "b") || N.eqb c (code "B") then Some 2%Z
          else None in
        match base, ds with
        | Some b, _ :: _ => digitsValue b 0 ds
        | _, _ => None
        end
      else None
  | _ => None
  end.

Definition parseDecimal (s : str) : number :=
  let '(neg, u) := takeSign s in
  if eqs u (lit "Infinity") then S754_infinity neg
  else match parseUnsignedDecimal u with
       | Some (m, e) => decimalToNumber neg m e
       | None => NaN
       end.

(** [Number(s)] for a string [s] (StringToNumber). *)
Definition Number (s : str) : number :=
  match trim s with
  | [] => S754_zero false
  | t => match parseNonDecimal t with
         | Some n => ofZ n
         | None => parseDecimal t
         end
  end.

End JS.

(** ** Data model *)

(** The [year] of a record: [null] or a number. *)
Inductive Year :=
  | Null
  | Num (x : JS.number).

(** [!!y] *)
Definition truthyYear (y : Year) : bool :=
  match y with
  | Null => false
  | Num x => JS.truthyNumber x
  end.

(** The number a relational operator compares: [null] counts as [+0]. *)
Definition toNumber (y : Year) : JS.number :=
  match y with
  | Null => S754_zero false
  | Num x => x
  end.

(** [a === b] *)
Definition strictEq (a b : Year) : bool :=
  match a, b with
  | Null, Null => true
  | Num x, Num y => JS.eqNumber x y
  | _, _ => false
  end.

Record Movie := mkMovie {
  id : JS.str;
  title : JS.str;
  year : Year;
  watched : bool }.

(** [formHint]: its text and its class. *)
Record Hint := mkHint {
  textContent : JS.str;
  className : JS.str }.

(** The three numbers [updateStats] writes into [statsText]. *)
Record Stats := mkStats {
  total : Z;
  watchedCount : Z;
  remaining : Z }.

(** What [randomOut] shows: the markup's own text, the "nothing to pick"
    message, or the pick with its title and, when truthy, its year. *)
Inductive RandomOut :=
  | Untouched
  | NothingToPick
  | Pick (pickedTitle : JS.str) (pickedYear : option JS.number).

(** The globals of the script and the DOM nodes it writes. *)
Record Page := mkPage {
  movies : list Movie;
  currentFilter : JS.str;
  currentQuery : JS.str;
  listEl : list Movie;
  statsText : Stats;
  formHint : Hint;
  randomOut : RandomOut;
  randomCalls : nat }.

(** What the engine provides and the script cannot compute by itself: the
    values [Math.random()] returns, call after call; the digits of
    [Number.prototype.toString(36)], which the language leaves to the
    implementation; and the two case conversions of strings, which follow
    the Unicode tables of the engine (they depend on context and can
    change the length of a string).  Of the conversions only one fact is
    fixed here: the empty string lowercases to the empty string. *)
Class Host := mkHost {
  Math_random : nat -> JS.number;
  toString36 : JS.number -> JS.str;
  toUpperCase : JS.str -> JS.str;
  toLowerCase : JS.str -> JS.str;
  toLowerCase_empty : toLowerCase [] = [] }.

(** ** State monad over the page *)

Definition Eff (A : Type) : Type := Page -> A * Page.

Definition ret {A : Type} (a : A) : Eff A := fun st => (a, st).

Definition bind {A B : Type} (c : Eff A) (k : A -> Eff B) : Eff B :=
  fun st => let '(a, st') := c st in k a st'.

Definition gets {A : Type} (f : Page -> A) : Eff A := fun st => (f st, st).

Definition modify (f : Page -> Page) : Eff unit := fun st => (tt, f st).

Definition exec {A : Type} (c : Eff A) (st : Page) : Page := snd (c st).

Declare Scope eff_scope.
Delimit Scope eff_scope with eff.
Notation "x <- c ;; k" := (bind c (fun x => k))
  (at level 61, c at next level, right associativity) : eff_scope.
Notation "c ;; k" := (bind c (fun _ => k))
  (at level 61, right associativity) : eff_scope.
Local Open Scope eff_scope.

Definition set_movies (ms : list Movie) (st : Page) : Page :=
  mkPage ms (currentFilter st) (currentQuery st) (listEl st) (statsText st)
         (formHint st) (randomOut st) (randomCalls st).

Definition set_currentFilter (v : JS.str) (st : Page) : Page :=
  mkPage (movies st) v (currentQuery st) (listEl st) (statsText st)
         (formHint st) (randomOut st) (randomCalls st).

Definition set_currentQuery (v : JS.str) (st : Page) : Page :=
  mkPage (movies st) (currentFilter st) v (listEl st) (statsText st)
         (formHint st) (randomOut st) (randomCalls st).

Definition set_listEl (items : list Movie) (st : Page) : Page :=
  mkPage (movies st) (currentFilter st) (currentQuery st) items (statsText st)
         (formHint st) (randomOut st) (randomCalls st).

Definition set_statsText (s : Stats) (st : Page) : Page :=
  mkPage (movies st) (currentFilter st) (currentQuery st) (listEl st) s
         (formHint st) (randomOut st) (randomCalls st).

Definition set_formHint (h : Hint) (st : Page) : Page :=
  mkPage (movies st) (currentFilter st) (currentQuery st) (listEl st)
         (statsText st) h (randomOut st) (randomCalls st).

Definition set_randomOut (r : RandomOut) (st : Page) : Page :=
  mkPage (movies st) (currentFilter st) (currentQuery st) (listEl st)
         (statsText st) (formHint st) r (randomCalls st).

Definition set_randomCalls (n : nat) (st : Page) : Page :=
  mkPage (movies st) (currentFilter st) (currentQuery st) (listEl st)
         (statsText st) (formHint st) (randomOut st) n.

(** The double quote character, which the hint texts contain. *)
Definition dq : JS.str := [34%N].

(** ** The script *)

Section Script.

Context {host : Host}.

(** [Math.random()]: the next value of the oracle. *)
Definition random : Eff JS.number :=
  n <- gets randomCalls ;;
  modify (set_randomCalls (S n)) ;;
  ret (Math_random n).

Definition cryptoRandomId : Eff JS.str :=
  r <- random ;;
  ret (JS.slice 2 10 (toString36 r)).

(** The [while] loop of [sanitizeTitle].  Every pass shortens [t], so the
    loop is run on a budget of [length t] passes; the budget is never used
    up ([collapseLoop_budget] below). *)
Fixpoint collapseLoop (budget : nat) (t : JS.str) : JS.str :=
  if JS.includes t (JS.lit "  ") then
    match budget with
    | 0 => t
    | S b => collapseLoop b (JS.replaceSpaceRuns t)
    end
  else t.

Definition titleCaseWord (word : JS.str) : JS.str :=
  match JS.charAt0 word with
  | Some c => toUpperCase c ++ toLowerCase (JS.sliceFrom 1 word)
  | None => []
  end.

Definition sanitizeTitle (raw : JS.str) : JS.str :=
  if negb (JS.truthyString raw) then []
  else
    let t := JS.trim raw in
    let t := collapseLoop (List.length t) t in
    JS.join (JS.lit " ") (map titleCaseWord (JS.split 32 t)).

Definition showHint (text type : JS.str) : Eff unit :=
  modify (set_formHint
    (mkHint text
       (if JS.eqs type (JS.lit "ok") then JS.lit "muted badge ok"
        else if JS.eqs type (JS.lit "warn") then JS.lit "muted badge warn"
        else JS.lit "muted"))).

Definition matchesFilter (filter : JS.str) (m : Movie) : bool :=
  JS.eqs filter (JS.lit "all")
  || (JS.eqs filter (JS.lit "watched") && watched m)
  || (JS.eqs filter (JS.lit "unwatched") && negb (watched m)).

Definition matchesQuery (q : JS.str) (m : Movie) : bool :=
  negb (JS.truthyString q) || JS.includes (toLowerCase (title m)) q.

Definition getVisibleMovies : Eff (list Movie) :=
  query <- gets currentQuery ;;
  let q := toLowerCase (JS.trim query) in
  ms <- gets movies ;;
  filter_ <- gets currentFilter ;;
  ret (filter (fun m => matchesFilter filter_ m && matchesQuery q m) ms).

(** [renderList] rebuilds [listEl] with one item per visible record. *)
Definition renderList : Eff unit :=
  items <- getVisibleMovies ;;
  modify (set_listEl items).

(** The [for] loop of [updateStats], [n] passes from index [i]. *)
Fixpoint statsLoop (n i : nat) (ms : list Movie) (count : Z) : Z :=
  match n with
  | 0 => count
  | S n' =>
      let count' :=
        match nth_error ms i with
        | Some m => if watched m then (count + 1)%Z else count
        | None => count
        end in
      statsLoop n' (S i) ms count'
  end.

Definition updateStats : Eff unit :=
  ms <- gets movies ;;
  let watched_ := statsLoop (List.length ms) 0 ms 0%Z in
  let total_ := Z.of_nat (List.length ms) in
  let remaining_ := (total_ - watched_)%Z in
  modify (set_statsText (mkStats total_ watched_ remaining_)).

(** The test of [movies.some(...)] in [addMovie]. *)
Definition sameEntry (cleanTitle : JS.str) (yr : Year) (m : Movie) : bool :=
  JS.eqs (toLowerCase (title m)) (toLowerCase cleanTitle)
  && Bool.eqb (truthyYear (year m)) (truthyYear yr)
  && strictEq (year m) yr.

Definition yearLooksOff (yr : Year) : bool :=
  truthyYear yr
  && (JS.lt (toNumber yr) (JS.ofZ 1888) || JS.gt (toNumber yr) (JS.ofZ 2100)).

Definition addMovie (rawTitle rawYear : JS.str) : Eff unit :=
  let cleanTitle := sanitizeTitle rawTitle in
  let yr := if JS.truthyString rawYear then Num (JS.Number rawYear) else Null in
  if negb (JS.truthyString cleanTitle) then
    showHint (JS.lit "Please enter a title.") (JS.lit "warn")
  else if yearLooksOff yr then
    showHint (JS.lit "Year looks off. Try something between 1888 and 2100.")
             (JS.lit "warn")
  else
    ms <- gets movies ;;
    if existsb (sameEntry cleanTitle yr) ms then
      showHint (dq ++ cleanTitle ++ dq ++ JS.lit " is already on your list.")
               (JS.lit "warn")
    else
      newId <- cryptoRandomId ;;
      ms <- gets movies ;;
      modify (set_movies (ms ++ [mkMovie newId cleanTitle yr false])) ;;
      showHint (JS.lit "Added " ++ dq ++ cleanTitle ++ dq ++ JS.lit ".")
               (JS.lit "ok") ;;
      renderList ;;
      updateStats.

(** [m.watched = !m.watched] on the first record whose id is [i]. *)
Fixpoint flipFirst (i : JS.str) (ms : list Movie) : list Movie :=
  match ms with
  | [] => []
  | m :: rest =>
      if JS.eqs (id m) i
      then mkMovie (id m) (title m) (year m) (negb (watched m)) :: rest
      else m :: flipFirst i rest
  end.

Definition toggleWatched (i : JS.str) : Eff unit :=
  ms <- gets movies ;;
  match find (fun x => JS.eqs (id x) i) ms with
  | None => ret tt
  | Some _ =>
      modify (set_movies (flipFirst i ms)) ;;
      renderList ;;
      updateStats
  end.

Definition removeMovie (i : JS.str) : Eff unit :=
  ms <- gets movies ;;
  modify (set_movies (filter (fun m => negb (JS.eqs (id m) i)) ms)) ;;
  renderList ;;
  updateStats.

(** [visible[Math.floor(r * visible.length)]]; [None] is [undefined]. *)
Definition choose (r : JS.number) (visible : list Movie) : option Movie :=
  let x := SFmul JS.prec JS.emax r (JS.ofZ (Z.of_nat (List.length visible))) in
  match JS.floorZ x with
  | Some k => if (0 <=? k)%Z then nth_error visible (Z.to_nat k) else None
  | None => None
  end.

(** When the index misses the array, reading [choice.title] throws and the
    listener ends there. *)
Definition pickRandom : Eff unit :=
  visible <- getVisibleMovies ;;
  if (List.length visible =? 0)%nat then modify (set_randomOut NothingToPick)
  else
    r <- random ;;
    match choose r visible with
    | Some choice =>
        modify (set_randomOut
          (Pick (title choice)
             (if truthyYear (year choice) then Some (toNumber (year choice))
              else None)))
    | None => ret tt
    end.

(** *** Listeners and start-up *)

Inductive Event :=
  | Submit (titleValue yearValue : JS.str)
  | ClickToggle (i : JS.str)
  | ClickRemove (i : JS.str)
  | ChangeFilter (value : JS.str)
  | InputSearch (value : JS.str)
  | ClickRandom.

Definition listener (ev : Event) : Eff unit :=
  match ev with
  | Submit t y => addMovie t y
  | ClickToggle i => toggleWatched i
  | ClickRemove i => removeMovie i
  | ChangeFilter v => modify (set_currentFilter v) ;; renderList ;; updateStats
  | InputSearch v => modify (set_currentQuery v) ;; renderList ;; updateStats
  | ClickRandom => pickRandom
  end.

(** The page as the markup leaves it, before the script runs. *)
Definition blankPage : Page :=
  mkPage [] [] [] [] (mkStats 0 0 0) (mkHint [] []) Untouched 0.

(** The top-level statements of the script. *)
Definition main : Eff unit :=
  id1 <- cryptoRandomId ;;
  id2 <- cryptoRandomId ;;
  id3 <- cryptoRandomId ;;
  modify (set_movies
    [ mkMovie id1 (JS.lit "The Iron Giant") (Num (JS.ofZ 1999)) false;
      mkMovie id2 (JS.lit "Get Out") (Num (JS.ofZ 2017)) true;
      mkMovie id3 (JS.lit "Your Name") (Num (JS.ofZ 2016)) false ]) ;;
  modify (set_currentFilter (JS.lit "all")) ;;
  modify (set_currentQuery (JS.lit "")) ;;
  renderList ;;
  updateStats ;;
  showHint (JS.lit "Add a movie to get started.") (JS.lit "muted").

Fixpoint run (evs : list Event) (st : Page) : Page :=
  match evs with
  | [] => st
  | ev :: rest => run rest (exec (listener ev) st)
  end.

(** The page after start-up and a sequence of events. *)
Definition session (evs : list Event) : Page := run evs (exec main blankPage).

Definition reachable (st : Page) : Prop := exists evs, st = session evs.

End Script.

(** ** ASCII letters *)

Module Ascii7.

Definition upperLetter (c : N) : N :=
  if ((97 <=? c) && (c <=? 122))%N then (c - 32)%N else c.

Definition lowerLetter (c : N) : N :=
  if ((65 <=? c) && (c <=? 90))%N then (c + 32)%N else c.

(** Text made of code units below 128. *)
Definition isAscii (s : JS.str) : bool := forallb (fun c => (c <? 128)%N) s.

Definition upper (s : JS.str) : JS.str := map upperLetter s.

Definition lower (s : JS.str) : JS.str := map lowerLetter s.

(** First letter uppercased, the others lowercased. *)
Definition capitalize (w : JS.str) : JS.str :=
  match w with
  | [] => []
  | c :: r => upperLetter c :: lower r
  end.

End Ascii7.

(** ** Two concrete hosts, to run the script on

    Their case conversions cover the ASCII letters and leave every other
    code unit alone; in the runs below the text they are given to convert
    is ASCII. *)

Module Demo.

(** Base-36 digits of a non-negative integer, most significant first. *)
Definition digitChar (d : Z) : N :=
  if (d <? 10)%Z then (48 + Z.to_N d)%N else (87 + Z.to_N d)%N.

Fixpoint intDigits (budget : nat) (n : Z) (acc : JS.str) : JS.str :=
  match budget with
  | 0 => acc
  | S b =>
      let acc' := digitChar (n mod 36) :: acc in
      if (n / 36 =? 0)%Z then acc' else intDigits b (n / 36) acc'
  end.

(** Base-36 digits of the fraction [num / den], until it is used up. *)
Fixpoint fracDigits (budget : nat) (num den : Z) : JS.str :=
  match budget with
  | 0 => []
  | S b =>
      if (num =? 0)%Z then []
      else digitChar (num * 36 / den)
           :: fracDigits b ((num * 36) mod den) den
  end.

(** The exact base-36 expansion of a number.  An engine prints the digits
    up to the point where they single out the value; on the values drawn
    below both agree on the integer part and the first eight fraction
    digits, which is all [cryptoRandomId] keeps. *)
Definition exactBase36 (x : JS.number) : JS.str :=
  match x with
  | S754_nan => JS.lit "NaN"
  | S754_infinity s => if s then JS.lit "-Infinity" else JS.lit "Infinity"
  | S754_zero _ => JS.lit "0"
  | S754_finite s m e =>
      let den := (if (e <? 0)%Z then 2 ^ (- e) else 1)%Z in
      let num := (if (e <? 0)%Z then Zpos m else Zpos m * 2 ^ e)%Z in
      let ip := intDigits (Z.to_nat (Z.log2 (num / den)) + 1) (num / den) [] in
      let fp := fracDigits (Z.to_nat (- e)) (num mod den) den in
      (if s then JS.lit "-" else []) ++ ip
      ++ match fp with [] => [] | _ => JS.lit "." ++ fp end
  end.

(** [num / 2^k] as a number. *)
Definition dyadic (num k : Z) : JS.number :=
  binary_normalize JS.prec JS.emax num (- k) false.

(** A source whose draws are 1/2, 1/4, 1/8, ... *)
Definition halving : Host :=
  mkHost (fun n => dyadic 1 (Z.of_nat (S n))) exactBase36
         Ascii7.upper Ascii7.lower eq_refl.

(** A source whose first draws are 1/2 + 2^-50, 1/2 + 2^-51 and
    1/2 + 2^-52: three different numbers of [0, 1) whose expansions start
    with the same eight digits. *)
Definition crowded : Host :=
  mkHost (fun n => dyadic (2 ^ (49 + Z.of_nat n) + 1) (50 + Z.of_nat n))
         exactBase36
         Ascii7.upper Ascii7.lower eq_refl.

(** The halving source, except that its fourth draw repeats the first. *)
Definition echoing : Host :=
  mkHost (fun n => dyadic 1 (Z.of_nat (S (if Nat.eqb n 3 then 0 else n))))
         exactBase36
         Ascii7.upper Ascii7.lower eq_refl.

End Demo.

(** ** The specification's wording, as definitions

    These follow the prose of the specification, not the script, and are
    written without the string built-ins of [Module JS]; the theorems
    below compare them with the script.  "Uppercase" and "lowercase" mean
    the conversions of the host, and a "character" is a code unit, as in
    the indexing of the language. *)

Module Spec.

Section Wording.

Context {host : Host}.

(** "Whitespace": tab, line feed, vertical tab, form feed, carriage
    return, space, no-break space, the Ogham space mark, the spaces U+2000
    to U+200A, line and paragraph separator, the narrow no-break space, the
    medium mathematical space, the ideographic space and the byte order
    mark. *)
Definition whiteSpaceUnits : list N :=
  [9; 10; 11; 12; 13; 32; 160; 5760; 8192; 8193; 8194; 8195; 8196; 8197;
   8198; 8199; 8200; 8201; 8202; 8232; 8233; 8239; 8287; 12288; 65279]%N.

Definition isWhite (c : N) : bool := existsb (N.eqb c) whiteSpaceUnits.

(** "Trim leading/trailing whitespace": drop white space from the front,
    and from the front of the reversed text. *)
Fixpoint dropWhite (s : JS.str) : JS.str :=
  match s with
  | [] => []
  | c :: r => if isWhite c then dropWhite r else c :: r
  end.

Definition trim (s : JS.str) : JS.str :=
  rev (dropWhite (rev (dropWhite s))).

(** "Collapse any run of two or more interior spaces into a single space":
    a space goes away exactly when another space follows it. *)
Fixpoint collapse (s : JS.str) : JS.str :=
  match s with
  | [] => []
  | c :: r =>
      match r with
      | c' :: _ =>
          if N.eqb c 32 && N.eqb c' 32 then collapse r
          else c :: collapse r
      | [] => [c]
      end
  end.

(** "Split on single spaces into words": a space closes the word in
    progress and opens the next one. *)
Fixpoint words (s : JS.str) : list JS.str :=
  match s with
  | [] => [[]]
  | c :: r =>
      if N.eqb c 32 then [] :: words r
      else match words r with
           | w :: ws => (c :: w) :: ws
           | [] => [[c]]
           end
  end.

(** "Join with single spaces": one space before every word but the
    first. *)
Definition unwords (ws : list JS.str) : JS.str :=
  match ws with
  | [] => []
  | w :: rest => w ++ List.concat (map (fun x => 32%N :: x) rest)
  end.

(** "Uppercase the first character and lowercase the remainder"; an empty
    word stays empty. *)
Definition capitalize (w : JS.str) : JS.str :=
  match w with
  | [] => []
  | c :: r => toUpperCase [c] ++ toLowerCase r
  end.

(** Rules 1 to 3 of title normalization, in order. *)
Definition normalize (raw : JS.str) : JS.str :=
  unwords (map capitalize (words (collapse (trim raw)))).

(** Input made of white space only (the empty input included). *)
Definition blank (s : JS.str) : bool := forallb isWhite s.

Inductive StatusFilter := All | Watched | Unwatched.

Definition filterValue (f : StatusFilter) : JS.str :=
  match f with
  | All => JS.lit "all"
  | Watched => JS.lit "watched"
  | Unwatched => JS.lit "unwatched"
  end.

Definition statusPasses (f : StatusFilter) (m : Movie) : Prop :=
  match f with
  | All => True
  | Watched => watched m = true
  | Unwatched => watched m = false
  end.

Definition substring_of (sub s : JS.str) : Prop :=
  exists pre post, s = pre ++ sub ++ post.

Definition searchPasses (searchText : JS.str) (m : Movie) : Prop :=
  searchText = []
  \/ substring_of (toLowerCase (trim searchText)) (toLowerCase (title m)).

Definition stats (catalog : list Movie) : Stats :=
  let total_ := Z.of_nat (List.length catalog) in
  let watched_ := Z.of_nat (List.length (filter watched catalog)) in
  mkStats total_ watched_ (total_ - watched_).

(** "An integer in [1888, 2100]". *)
Definition integerInRange (x : JS.number) : Prop :=
  JS.isInteger x = true
  /\ JS.le (JS.ofZ 1888) x = true /\ JS.le x (JS.ofZ 2100) = true.

(** "Both null, or both equal non-null integers". *)
Definition yearsMatch (a b : Year) : Prop :=
  match a, b with
  | Null, Null => True
  | Num x, Num y =>
      JS.isInteger x = true /\ JS.isInteger y = true /\ JS.eqNumber x y = true
  | _, _ => False
  end.

End Wording.

End Spec.

(** ** Notions the theorems are stated with *)

(** A year is within bounds when the two comparisons of [addMovie] both
    fail on it. *)
Definition withinBounds (x : JS.number) : Prop :=
  JS.le (JS.ofZ 1888) x = true /\ JS.le x (JS.ofZ 2100) = true.

(** The hint each refusal of [addMovie] leaves in [formHint]. *)
Definition emptyTitleHint : Hint :=
  mkHint (JS.lit "Please enter a title.") (JS.lit "muted badge warn").

Definition yearOutOfRangeHint : Hint :=
  mkHint (JS.lit "Year looks off. Try something between 1888 and 2100.")
         (JS.lit "muted badge warn").

Definition duplicateHint (cleanTitle : JS.str) : Hint :=
  mkHint (dq ++ cleanTitle ++ dq ++ JS.lit " is already on your list.")
         (JS.lit "muted badge warn").

Definition addedHint (cleanTitle : JS.str) : Hint :=
  mkHint (JS.lit "Added " ++ dq ++ cleanTitle ++ dq ++ JS.lit ".")
         (JS.lit "muted badge ok").

(** The year [addMovie] derives from the text of the year field. *)
Definition parseYear (rawYear : JS.str) : Year :=
  if JS.truthyString rawYear then Num (JS.Number rawYear) else Null.

Definition toggled (m : Movie) : Movie :=
  mkMovie (id m) (title m) (year m) (negb (watched m)).


(** [a] is [b] with some elements left out, the order kept. *)
Inductive subsequence {A : Type} : list A -> list A -> Prop :=
  | subsequence_nil : subsequence [] []
  | subsequence_skip (x : A) (a b : list A) :
      subsequence a b -> subsequence a (x :: b)
  | subsequence_keep (x : A) (a b : list A) :
      subsequence a b -> subsequence (x :: a) (x :: b).

(** The records [removeMovie(i)] keeps. *)
Definition without (i : JS.str) (ms : list Movie) : list Movie :=
  filter (fun m => negb (JS.eqs (id m) i)) ms.

Fixpoint allDistinct (l : list JS.str) : bool :=
  match l with
  | [] => true
  | x :: rest => negb (existsb (JS.eqs x) rest) && allDistinct rest
  end.

(** What [addMovie] checks before it stores a record. *)
Definition wellFormed (m : Movie) : Prop :=
  title m <> [] /\ yearLooksOff (year m) = false.

(** Title case written character by character, for ASCII text: a letter is
    uppercased when it opens the string or follows a space, and lowercased
    otherwise. *)
Fixpoint titleCase (start : bool) (s : JS.str) : JS.str :=
  match s with
  | [] => []
  | c :: r =>
      if JS.isSpace c then c :: titleCase true r
      else (if start then Ascii7.upperLetter c else Ascii7.lowerLetter c)
           :: titleCase false r
  end.

(** A string in the shape [sanitizeTitle] produces: nothing to trim at either
    end and no two adjacent spaces. *)
Definition tidy (s : JS.str) : Prop :=
  JS.trimStart s = s /\ JS.trimEnd s = s /\ JS.includes s (JS.lit "  ") = false.

Section HostNotions.

Context {host : Host}.

(** Two facts about the case conversions of any engine, used as
    hypotheses where a proof needs them: they never turn a non-empty string
    into the empty one, and on ASCII text they are the conversions of the
    ASCII letters. *)
Definition upperKeepsText : Prop := forall s, toUpperCase s = [] -> s = [].

Definition lowerKeepsText : Prop := forall s, toLowerCase s = [] -> s = [].

Definition asciiCase : Prop :=
  forall s, Ascii7.isAscii s = true ->
            toUpperCase s = Ascii7.upper s
            /\ toLowerCase s = Ascii7.lower s.

(** Two records carry the same entry: titles equal up to case, years equal
    under [===]. *)
Definition sameKey (a b : Movie) : bool :=
  JS.eqs (toLowerCase (title a)) (toLowerCase (title b))
  && strictEq (year a) (year b).

(** No record carries the entry of a record stored before it. *)
Fixpoint distinctEntries (ms : list Movie) : Prop :=
  match ms with
  | [] => True
  | m :: rest =>
      Forall (fun m' => sameKey m m' = false) rest /\ distinctEntries rest
  end.

(** The projection of a catalog under a filter value and a search text. *)
Definition visibleOf (filterValue query : JS.str) (ms : list Movie) :
    list Movie :=
  filter (fun m => matchesFilter filterValue m
                   && matchesQuery (toLowerCase (JS.trim query)) m) ms.

(** The page with catalog [ms], rendered and counted. *)
Definition shown (ms : list Movie) (st : Page) : Page :=
  mkPage ms (currentFilter st) (currentQuery st)
         (visibleOf (currentFilter st) (currentQuery st) ms)
         (Spec.stats ms) (formHint st) (randomOut st) (randomCalls st).

(** The rendered list and the stats line agree with the catalog and the
    view settings. *)
Definition inSync (st : Page) : Prop :=
  listEl st = visibleOf (currentFilter st) (currentQuery st) (movies st)
  /\ statsText st = Spec.stats (movies st).

(** The id [cryptoRandomId] cuts from the [k]-th draw. *)
Definition idOfDraw (k : nat) : JS.str :=
  JS.slice 2 10 (toString36 (Math_random k)).

(** The records an event adds to the array: [addMovie] only ever pushes. *)
Definition newRecords (ev : Event) (st st' : Page) : list Movie :=
  match ev with
  | Submit _ _ => skipn (List.length (movies st)) (movies st')
  | _ => []
  end.

Fixpoint createdBy (evs : list Event) (st : Page) : list Movie :=
  match evs with
  | [] => []
  | ev :: rest =>
      let st' := exec (listener ev) st in
      newRecords ev st st' ++ createdBy rest st'
  end.

(** Every record created in a session: the seed records, then one per
    accepted submission, whether or not it was removed later. *)
Definition created (evs : list Event) : list Movie :=
  movies (exec main blankPage) ++ createdBy evs (exec main blankPage).

(** [addMovie] reaches its call of [cryptoRandomId] when none of its three
    checks stops it. *)
Definition accepts (rawTitle rawYear : JS.str) (st : Page) : bool :=
  JS.truthyString (sanitizeTitle rawTitle)
  && negb (yearLooksOff (parseYear rawYear))
  && negb (existsb (sameEntry (sanitizeTitle rawTitle) (parseYear rawYear))
             (movies st)).

(** The draws of [Math.random] that [cryptoRandomId] makes: three at
    start-up, then one per accepted submission.  The draws of [pickRandom]
    are not among them. *)
Definition idDrawsOf (ev : Event) (st : Page) : list nat :=
  match ev with
  | Submit t y => if accepts t y st then [randomCalls st] else []
  | _ => []
  end.

Fixpoint idDrawsBy (evs : list Event) (st : Page) : list nat :=
  match evs with
  | [] => []
  | ev :: rest => idDrawsOf ev st ++ idDrawsBy rest (exec (listener ev) st)
  end.

Definition idDraws (evs : list Event) : list nat :=
  [0; 1; 2] ++ idDrawsBy evs (exec main blankPage).

(** The ids of a list of records are those of the draws [ks]. *)
Definition drawnFrom (ks : list nat) (ms : list Movie) : Prop :=
  map id ms = map idOfDraw ks.

(** The bookkeeping behind the identifiers: the records created so far
    took their ids from the draws [ks], all different and already made, and
    the records of the catalog from some of these. *)
Definition ledger (ks : list nat) (hist : list Movie) (st : Page) : Prop :=
  drawnFrom ks hist /\ NoDup ks
  /\ Forall (fun k => k < randomCalls st) ks
  /\ exists js, drawnFrom js (movies st) /\ NoDup js /\ incl js ks.

(** The title fields an event list submits are ASCII text. *)
Definition asciiTitles (evs : list Event) : Prop :=
  Forall (fun ev => match ev with
                    | Submit t _ => Ascii7.isAscii t = true
                    | _ => True
                    end) evs.

End HostNotions.

(** * Facts *)

(** ** Title normalization *)

Section Normalization.

Context {host : Host}.

Lemma isSpace_eq (c : N) : JS.isSpace c = true -> c = 32%N.
Proof. unfold JS.isSpace. apply N.eqb_eq. Qed.

Lemma collapse_cons2 (c c' : N) (r : JS.str) :
  Spec.collapse (c :: c' :: r)
  = if JS.isSpace c && JS.isSpace c' then Spec.collapse (c' :: r)
    else c :: Spec.collapse (c' :: r).
Proof. reflexivity. Qed.

(** One pass of the regular expression does what the specification's
    [collapse] does; the second half covers the scanner inside a run. *)
Lemma replaceRuns_collapse (s : JS.str) :
  JS.replaceRuns 0 s = Spec.collapse s
  /\ 32%N :: JS.replaceRuns (JS.leadingSpaces s) s
     = Spec.collapse (32%N :: s).
Proof.
  induction s as [|c r [IH1 IH2]].
  - split; reflexivity.
  - assert (H1 : JS.replaceRuns 0 (c :: r) = Spec.collapse (c :: r)).
    { cbn [JS.replaceRuns JS.leadingSpaces].
      destruct (JS.isSpace c) eqn:Hc.
      - apply isSpace_eq in Hc. subst c.
        destruct r as [|c' r'].
        + reflexivity.
        + rewrite collapse_cons2. cbn [JS.leadingSpaces] in *.
          destruct (JS.isSpace c') eqn:Hc'.
          * cbn [Nat.leb Nat.sub]. rewrite ?Nat.sub_0_r.
            rewrite IH2, collapse_cons2, Hc'. reflexivity.
          * cbn [Nat.leb]. rewrite IH1. reflexivity.
      - cbn [Nat.leb]. rewrite IH1.
        destruct r as [|c' r']; [reflexivity|].
        rewrite collapse_cons2, Hc. reflexivity. }
    split; [exact H1|].
    rewrite collapse_cons2.
    cbn [JS.leadingSpaces].
    destruct (JS.isSpace c) eqn:Hc.
    + apply isSpace_eq in Hc. subst c.
      cbn [JS.replaceRuns]. rewrite IH2. reflexivity.
    + rewrite H1, andb_false_r. reflexivity.
Qed.

Lemma replaceSpaceRuns_collapse (s : JS.str) :
  JS.replaceSpaceRuns s = Spec.collapse s.
Proof. apply replaceRuns_collapse. Qed.

(** [t.includes("  ")], unfolded one character. *)
Lemma includes_double_cons (c : N) (r : JS.str) :
  JS.includes (c :: r) (JS.lit "  ")
  = (JS.isSpace c && match r with
                     | c' :: _ => JS.isSpace c'
                     | [] => false
                     end)
    || JS.includes r (JS.lit "  ").
Proof.
  change (JS.lit "  ") with [32%N; 32%N].
  cbn [JS.includes]. f_equal.
  unfold JS.isSpace. cbn [JS.startsWith].
  rewrite (N.eqb_sym 32 c). f_equal.
  destruct r as [|c' r']; [reflexivity|].
  rewrite (N.eqb_sym 32 c'). apply andb_true_r.
Qed.

Lemma collapse_head_space (s : JS.str) :
  match Spec.collapse s with
  | c :: _ => JS.isSpace c
  | [] => false
  end
  = match s with
    | c :: _ => JS.isSpace c
    | [] => false
    end.
Proof.
  induction s as [|c r IH]; [reflexivity|].
  destruct r as [|c' r']; [reflexivity|].
  rewrite collapse_cons2.
  cbn beta iota in IH.
  destruct (JS.isSpace c) eqn:Hc; [|cbn [andb]; exact Hc].
  destruct (JS.isSpace c') eqn:Hc'; cbn [andb].
  - exact IH.
  - exact Hc.
Qed.

(** After one pass no two spaces are adjacent: the loop stops. *)
Lemma collapse_no_double (s : JS.str) :
  JS.includes (Spec.collapse s) (JS.lit "  ") = false.
Proof.
  induction s as [|c r IH]; [reflexivity|].
  destruct r as [|c' r'].
  - cbn [Spec.collapse]. rewrite includes_double_cons, andb_false_r.
    reflexivity.
  - rewrite collapse_cons2.
    destruct (JS.isSpace c && JS.isSpace c') eqn:Hcc; [exact IH|].
    rewrite includes_double_cons, IH, orb_false_r.
    pose proof (collapse_head_space (c' :: r')) as Hh.
    cbn beta iota in Hh.
    destruct (Spec.collapse (c' :: r')) as [|d r''].
    + apply andb_false_r.
    + rewrite Hh. exact Hcc.
Qed.

(** Without two adjacent spaces there is nothing to collapse. *)
Lemma collapse_fixed (s : JS.str) :
  JS.includes s (JS.lit "  ") = false -> Spec.collapse s = s.
Proof.
  induction s as [|c r IH]; [reflexivity|].
  rewrite includes_double_cons. intros H.
  apply orb_false_iff in H. destruct H as [Hcc Hr].
  destruct r as [|c' r']; [reflexivity|].
  rewrite collapse_cons2, Hcc, (IH Hr). reflexivity.
Qed.

Lemma includes_double_length (s : JS.str) :
  JS.includes s (JS.lit "  ") = true -> 2 <= List.length s.
Proof.
  induction s as [|c r IH]; [discriminate|].
  rewrite includes_double_cons. intros H.
  apply orb_true_iff in H. destruct H as [H|H].
  - destruct r; [rewrite andb_false_r in H; discriminate|cbn; lia].
  - specialize (IH H). cbn. lia.
Qed.

(** The loop of [sanitizeTitle] ends within its budget, for any budget of
    at least one pass, with the collapsed string. *)
Lemma collapseLoop_budget (b : nat) (t : JS.str) :
  1 <= b \/ JS.includes t (JS.lit "  ") = false ->
  collapseLoop b t = Spec.collapse t
  /\ JS.includes (collapseLoop b t) (JS.lit "  ") = false.
Proof.
  intros Hb.
  assert (E : collapseLoop b t = Spec.collapse t).
  { destruct (JS.includes t (JS.lit "  ")) eqn:Hin.
    - destruct Hb as [Hb|Hb]; [|discriminate].
      destruct b as [|b']; [lia|].
      cbn [collapseLoop]. rewrite Hin, replaceSpaceRuns_collapse.
      destruct b' as [|b'']; cbn [collapseLoop];
        rewrite collapse_no_double; reflexivity.
    - rewrite (collapse_fixed _ Hin).
      destruct b; cbn [collapseLoop]; rewrite Hin; reflexivity. }
  split; [exact E|]. rewrite E. apply collapse_no_double.
Qed.

Lemma collapseLoop_length (t : JS.str) :
  collapseLoop (List.length t) t = Spec.collapse t.
Proof.
  apply collapseLoop_budget.
  destruct (JS.includes t (JS.lit "  ")) eqn:Hin; [left|right; reflexivity].
  apply includes_double_length in Hin. lia.
Qed.

(** The white space of the language, given by ranges, is the white space
    the specification lists. *)
Lemma isWhiteSpace_isWhite (c : N) : JS.isWhiteSpace c = Spec.isWhite c.
Proof.
  unfold Spec.isWhite, Spec.whiteSpaceUnits, JS.isWhiteSpace.
  cbn [existsb].
  repeat match goal with
         | |- context [N.eqb c ?k] =>
             destruct (N.eqb_spec c k) as [->|?]; [reflexivity|]
         end.
  cbn [orb].
  destruct (N.leb_spec 9 c), (N.leb_spec c 13), (N.leb_spec 8192 c),
    (N.leb_spec c 8202); cbn [andb orb]; try reflexivity; lia.
Qed.

Lemma blank_forall (s : JS.str) : Spec.blank s = forallb JS.isWhiteSpace s.
Proof.
  unfold Spec.blank. induction s as [|c r IH]; [reflexivity|].
  cbn [forallb]. now rewrite IH, isWhiteSpace_isWhite.
Qed.

(** [trim] of the language against the specification's. *)
Lemma trimStart_dropWhite (s : JS.str) : JS.trimStart s = Spec.dropWhite s.
Proof.
  induction s as [|c r IH]; [reflexivity|].
  cbn [JS.trimStart Spec.dropWhite]. now rewrite isWhiteSpace_isWhite, IH.
Qed.

Lemma dropWhite_app (a b : JS.str) :
  Spec.dropWhite (a ++ b)
  = match Spec.dropWhite a with
    | [] => Spec.dropWhite b
    | x => x ++ b
    end.
Proof.
  induction a as [|c r IH]; [reflexivity|].
  cbn [app Spec.dropWhite]. destruct (Spec.isWhite c); [exact IH|].
  reflexivity.
Qed.

Lemma trimEnd_rev (s : JS.str) :
  JS.trimEnd s = rev (Spec.dropWhite (rev s)).
Proof.
  induction s as [|c r IH]; [reflexivity|].
  cbn [JS.trimEnd rev]. rewrite dropWhite_app, IH.
  destruct (Spec.dropWhite (rev r)) as [|d x] eqn:E.
  - cbn [rev app Spec.dropWhite]. rewrite isWhiteSpace_isWhite.
    destruct (Spec.isWhite c); reflexivity.
  - rewrite rev_app_distr. cbn [rev app].
    destruct (rev x ++ [d]) eqn:E'; [|reflexivity].
    apply app_eq_nil in E'. destruct E' as [_ E']. discriminate.
Qed.

Lemma trim_spec (s : JS.str) : JS.trim s = Spec.trim s.
Proof.
  unfold JS.trim, Spec.trim. now rewrite trimEnd_rev, trimStart_dropWhite.
Qed.

(** [split] and [join] of the language against the specification's words. *)
Lemma words_first (s : JS.str) : exists w ws, Spec.words s = w :: ws.
Proof.
  induction s as [|c r (w & ws & E)]; cbn [Spec.words].
  - eauto.
  - destruct (N.eqb c 32); [eauto|]. rewrite E. eauto.
Qed.

Lemma splitFrom_words (cur s : JS.str) :
  JS.splitFrom 32 cur s
  = match Spec.words s with
    | w :: ws => (rev cur ++ w) :: ws
    | [] => [rev cur]
    end.
Proof.
  revert cur. induction s as [|c r IH]; intros cur.
  - cbn. now rewrite app_nil_r.
  - cbn [JS.splitFrom Spec.words]. destruct (N.eqb c 32).
    + rewrite app_nil_r, IH. destruct (words_first r) as (w & ws & E).
      rewrite E. reflexivity.
    + rewrite IH. destruct (words_first r) as (w & ws & E). rewrite E.
      cbn [rev]. now rewrite <- app_assoc.
Qed.

Lemma split_words (s : JS.str) : JS.split 32 s = Spec.words s.
Proof.
  unfold JS.split. rewrite splitFrom_words.
  destruct (words_first s) as (w & ws & E). rewrite E. reflexivity.
Qed.

Lemma join_unwords (ws : list JS.str) :
  JS.join (JS.lit " ") ws = Spec.unwords ws.
Proof.
  change (JS.lit " ") with [32%N].
  induction ws as [|w rest IH]; [reflexivity|].
  destruct rest as [|w' rest'].
  - cbn. now rewrite app_nil_r.
  - cbn [JS.join] in *. rewrite IH. reflexivity.
Qed.

Lemma titleCaseWord_capitalize (w : JS.str) :
  titleCaseWord w = Spec.capitalize w.
Proof. destruct w; reflexivity. Qed.

Lemma sanitizeTitle_normalize (raw : JS.str) :
  sanitizeTitle raw = Spec.normalize raw.
Proof.
  unfold sanitizeTitle, Spec.normalize.
  destruct raw as [|c r]; [reflexivity|].
  cbn [JS.truthyString negb]. cbv zeta.
  rewrite collapseLoop_length, split_words, join_unwords, trim_spec.
  f_equal. apply map_ext. intros w. apply titleCaseWord_capitalize.
Qed.

Lemma trimStart_blank (s : JS.str) :
  Spec.blank s = true -> JS.trimStart s = [].
Proof.
  rewrite blank_forall.
  induction s as [|c r IH]; [reflexivity|].
  cbn [forallb JS.trimStart]. intros H.
  apply andb_true_iff in H. destruct H as [Hc Hr].
  rewrite Hc. auto.
Qed.

Lemma trim_blank (s : JS.str) : Spec.blank s = true -> JS.trim s = [].
Proof. intros H. unfold JS.trim. now rewrite trimStart_blank. Qed.

Lemma trimStart_empty (s : JS.str) :
  JS.trimStart s = [] -> Spec.blank s = true.
Proof.
  rewrite blank_forall.
  induction s as [|c r IH]; [reflexivity|].
  cbn [JS.trimStart forallb].
  destruct (JS.isWhiteSpace c); [exact IH|discriminate].
Qed.

Lemma trimEnd_empty (s : JS.str) :
  JS.trimEnd s = [] -> Spec.blank s = true.
Proof.
  rewrite blank_forall.
  induction s as [|c r IH]; [reflexivity|].
  cbn [JS.trimEnd forallb].
  destruct (JS.trimEnd r); [|discriminate].
  destruct (JS.isWhiteSpace c); [intros _; apply IH; reflexivity|discriminate].
Qed.

(** What [trimStart] leaves is empty or starts with a character that is
    not white space. *)
Lemma trimStart_head (s : JS.str) :
  match JS.trimStart s with
  | [] => True
  | c :: _ => JS.isWhiteSpace c = false
  end.
Proof.
  induction s as [|c r IH]; [exact I|].
  cbn [JS.trimStart]. destruct (JS.isWhiteSpace c) eqn:Hc; [exact IH|exact Hc].
Qed.

Lemma trim_empty (s : JS.str) : JS.trim s = [] -> Spec.blank s = true.
Proof.
  unfold JS.trim. intros H. apply trimStart_empty.
  apply trimEnd_empty in H. pose proof (trimStart_head s) as Hh.
  destruct (JS.trimStart s) as [|c r]; [reflexivity|].
  rewrite blank_forall in H. cbn [forallb] in H. rewrite Hh in H.
  discriminate.
Qed.

Lemma collapse_empty (s : JS.str) : Spec.collapse s = [] -> s = [].
Proof.
  induction s as [|c r IH]; [reflexivity|].
  destruct r as [|c' r']; [discriminate|].
  rewrite collapse_cons2.
  destruct (JS.isSpace c && JS.isSpace c'); [|discriminate].
  intros H. apply IH in H. discriminate.
Qed.

Lemma capitalized_words_empty (s : JS.str) :
  upperKeepsText ->
  Spec.unwords (map Spec.capitalize (Spec.words s)) = [] -> s = [].
Proof.
  intros Hup.
  destruct s as [|c r]; [reflexivity|].
  cbn [Spec.words]. destruct (words_first r) as (w & ws & E). rewrite E.
  destruct (N.eqb c 32); cbn [map Spec.unwords Spec.capitalize].
  - cbn. discriminate.
  - intros H. apply app_eq_nil in H. destruct H as [H _].
    apply app_eq_nil in H. destruct H as [H _].
    apply Hup in H. discriminate.
Qed.

(** Input that is empty or white space only normalizes to the empty
    title; with a case conversion that keeps text, nothing else does. *)
Lemma sanitizeTitle_blank (raw : JS.str) :
  Spec.blank raw = true -> sanitizeTitle raw = [].
Proof.
  intros H. unfold sanitizeTitle. destruct raw as [|c r]; [reflexivity|].
  cbn [JS.truthyString negb]. rewrite (trim_blank _ H). reflexivity.
Qed.

Lemma sanitizeTitle_empty (raw : JS.str) :
  upperKeepsText -> sanitizeTitle raw = [] -> Spec.blank raw = true.
Proof.
  intros Hup. rewrite sanitizeTitle_normalize. unfold Spec.normalize.
  intros H. apply (capitalized_words_empty _ Hup), collapse_empty in H.
  apply trim_empty. rewrite trim_spec. exact H.
Qed.

End Normalization.

(** C5. For every raw string, [sanitizeTitle] returns what the rules of the
    specification give when applied in order: trim, collapse every run of
    two or more spaces into one, split on single spaces and capitalize each
    word (first character uppercased, the rest lowercased), join with single
    spaces.  Input that is empty or white space only yields the empty
    string.  The result is a function of the raw string alone:
    [sanitizeTitle] takes no page state and equal inputs give equal
    outputs. *)
Theorem sanitizeTitle_meets_spec {host : Host} (raw : JS.str) :
  sanitizeTitle raw = Spec.normalize raw
  /\ (Spec.blank raw = true -> sanitizeTitle raw = [])
  /\ (forall raw', raw' = raw -> sanitizeTitle raw' = sanitizeTitle raw).
Proof.
  split; [apply sanitizeTitle_normalize|]. split.
  - apply sanitizeTitle_blank.
  - intros raw' ->. reflexivity.
Qed.

Lemma sanitizeTitle_meets_spec_witness :
  Spec.blank (JS.lit "   ") = true
  /\ @sanitizeTitle Demo.halving (JS.lit "   ") = []
  /\ @sanitizeTitle Demo.halving
       (160%N :: 9%N :: JS.lit " get   oUT " ++ [65279%N; 8232%N])
     = JS.lit "Get Out".
Proof.
  split; [reflexivity|]. split.
  - apply (proj1 (proj2
      (@sanitizeTitle_meets_spec Demo.halving (JS.lit "   ")))).
    reflexivity.
  - rewrite (proj1
      (@sanitizeTitle_meets_spec Demo.halving
         (160%N :: 9%N :: JS.lit " get   oUT " ++ [65279%N; 8232%N]))).
    reflexivity.
Defined.

(** ** String equality *)

Section Strings.

Lemma eqs_refl (s : JS.str) : JS.eqs s s = true.
Proof.
  induction s as [|c r IH]; [reflexivity|].
  cbn [JS.eqs]. now rewrite N.eqb_refl, IH.
Qed.

Lemma eqs_eq (s t : JS.str) : JS.eqs s t = true <-> s = t.
Proof.
  split; [|intros ->; apply eqs_refl].
  revert t. induction s as [|c r IH]; intros [|d t']; cbn [JS.eqs];
    try discriminate; [reflexivity|].
  intros H. apply andb_true_iff in H. destruct H as [Hc Hr].
  apply N.eqb_eq in Hc. apply IH in Hr. congruence.
Qed.

Lemma eqs_neq (s t : JS.str) : JS.eqs s t = false <-> s <> t.
Proof.
  split.
  - intros H E. apply eqs_eq in E. congruence.
  - intros H. destruct (JS.eqs s t) eqn:E; [|reflexivity].
    apply eqs_eq in E. contradiction.
Qed.

Lemma eqs_sym (s t : JS.str) : JS.eqs s t = JS.eqs t s.
Proof.
  destruct (JS.eqs s t) eqn:E.
  - apply eqs_eq in E. subst. symmetry. apply eqs_refl.
  - symmetry. apply eqs_neq. apply eqs_neq in E. congruence.
Qed.

Lemma eqs_spec (s t : JS.str) : reflect (s = t) (JS.eqs s t).
Proof.
  destruct (JS.eqs s t) eqn:E; constructor.
  - apply eqs_eq, E.
  - apply eqs_neq, E.
Qed.

End Strings.
(** ** Numbers and years *)

Section Numbers.

Lemma SFcompare_swap (x y : JS.number) :
  SFcompare y x = option_map CompOpp (SFcompare x y).
Proof.
  destruct x as [sx|sx| |sx mx ex], y as [sy|sy| |sy my ey]; cbn;
    try reflexivity;
    try (destruct sx; reflexivity);
    try (destruct sy; reflexivity);
    try (destruct sx, sy; reflexivity).
  assert (Hm : Pos.compare_cont Eq my mx = CompOpp (Pos.compare_cont Eq mx my))
    by (symmetry; apply (Pos.compare_cont_antisym mx my Eq)).
  destruct sx, sy; try reflexivity;
    rewrite (Z.compare_antisym ex ey), Hm;
    destruct (ex ?= ey)%Z; cbn; try reflexivity;
    destruct (Pos.compare_cont Eq mx my); reflexivity.
Qed.

(** [x < c] fails on a number [x] that is not [NaN]: then [c <= x]. *)
Lemma not_lt_le (x c : JS.number) :
  SFcompare x c <> None -> JS.lt x c = false -> JS.le c x = true.
Proof.
  unfold JS.lt, JS.le, SFltb, SFleb. rewrite (SFcompare_swap x c).
  destruct (SFcompare x c) as [[| |]|]; cbn; congruence.
Qed.

Lemma compare_finite_defined (x : JS.number) (s : bool) (m : positive) (e : Z) :
  x <> S754_nan ->
  SFcompare x (S754_finite s m e) <> None
  /\ SFcompare (S754_finite s m e) x <> None.
Proof.
  intros Hx. destruct x; cbn; try congruence; split; congruence.
Qed.

Lemma truthy_not_nan (x : JS.number) :
  JS.truthyNumber x = true -> x <> S754_nan.
Proof. destruct x; cbn; congruence. Qed.

(** Numbers equal under [===] behave alike in every test of the script. *)
Lemma eqNumber_alike (x y : JS.number) :
  JS.eqNumber x y = true ->
  JS.truthyNumber x = JS.truthyNumber y
  /\ forall c, SFcompare x c = SFcompare y c /\ SFcompare c x = SFcompare c y.
Proof.
  unfold JS.eqNumber, SFeqb.
  destruct x as [sx|sx| |sx mx ex], y as [sy|sy| |sy my ey]; cbn;
    try discriminate;
    try (destruct sx; discriminate);
    try (destruct sy; discriminate).
  - intros _. split; [reflexivity|]. intros c. destruct c; split; reflexivity.
  - destruct sx, sy; try discriminate; intros _; split; auto.
  - intros H. assert (E : sx = sy /\ ex = ey /\ mx = my).
    { revert H. destruct sx, sy; try discriminate;
        destruct (ex ?= ey)%Z eqn:He; try discriminate;
        apply Z.compare_eq in He;
        destruct (Pos.compare_cont Eq mx my) eqn:Hm; try discriminate;
        apply Pos.compare_eq in Hm; auto. }
    destruct E as (-> & -> & ->). auto.
Qed.

Lemma strictEq_alike (a b : Year) :
  strictEq a b = true ->
  truthyYear a = truthyYear b /\ yearLooksOff a = yearLooksOff b.
Proof.
  destruct a as [|x], b as [|y]; cbn [strictEq]; try discriminate.
  - auto.
  - intros H. destruct (eqNumber_alike _ _ H) as [Ht Hc].
    unfold yearLooksOff, JS.lt, JS.gt, SFltb. cbn [truthyYear toNumber].
    rewrite Ht. split; [reflexivity|].
    destruct (Hc (JS.ofZ 1888)) as [-> _].
    destruct (Hc (JS.ofZ 2100)) as [_ ->]. reflexivity.
Qed.

Lemma strictEq_sym (a b : Year) : strictEq a b = strictEq b a.
Proof.
  destruct a as [|x], b as [|y]; cbn [strictEq]; try reflexivity.
  unfold JS.eqNumber, SFeqb. rewrite (SFcompare_swap x y).
  destruct (SFcompare x y) as [[| |]|]; reflexivity.
Qed.

(** What the spec calls equal years is equal under [===]. *)
Lemma yearsMatch_strictEq (a b : Year) :
  Spec.yearsMatch a b -> strictEq a b = true.
Proof.
  destruct a, b; cbn [Spec.yearsMatch strictEq]; tauto.
Qed.

(** A year that passed the range test of [addMovie] and is truthy lies
    between the two bounds. *)
Lemma accepted_within_bounds (x : JS.number) :
  yearLooksOff (Num x) = false ->
  JS.truthyNumber x = true -> withinBounds x.
Proof.
  unfold yearLooksOff. cbn [truthyYear toNumber]. intros H Ht.
  rewrite Ht in H. cbn [andb] in H. apply orb_false_iff in H.
  destruct H as [Hlo Hhi]. apply truthy_not_nan in Ht.
  split.
  - apply not_lt_le; [|exact Hlo].
    apply (compare_finite_defined x false 8303511812964352 (-42) Ht).
  - unfold JS.gt in Hhi. apply not_lt_le; [|exact Hhi].
    apply (compare_finite_defined x false 4617948836659200 (-41) Ht).
Qed.

End Numbers.

(** ** What each operation does to the page *)

Section Operations.

Context {host : Host}.

Lemma truthyString_false (s : JS.str) :
  JS.truthyString s = false <-> s = [].
Proof. destruct s; cbn; split; congruence. Qed.

Lemma statsLoop_counts (suffix pre : list Movie) (count : Z) :
  statsLoop (List.length suffix) (List.length pre) (pre ++ suffix) count
  = (count + Z.of_nat (List.length (filter watched suffix)))%Z.
Proof.
  revert pre count. induction suffix as [|m rest IH]; intros pre count.
  - cbn. lia.
  - cbn [List.length statsLoop].
    rewrite nth_error_app2 by lia. rewrite Nat.sub_diag. cbn [nth_error].
    replace (pre ++ m :: rest) with ((pre ++ [m]) ++ rest)
      by (rewrite <- app_assoc; reflexivity).
    replace (S (List.length pre)) with (List.length (pre ++ [m]))
      by (rewrite length_app; cbn; lia).
    rewrite IH. cbn [filter]. destruct (watched m); cbn [List.length]; lia.
Qed.

Lemma updateStats_exec (st : Page) :
  exec updateStats st = set_statsText (Spec.stats (movies st)) st.
Proof.
  unfold updateStats, exec, bind, gets, modify. cbn [fst snd].
  unfold Spec.stats.
  pose proof (statsLoop_counts (movies st) [] 0) as H.
  cbn [List.length app] in H. rewrite H. reflexivity.
Qed.

Lemma renderList_exec (st : Page) :
  exec renderList st = set_listEl (fst (getVisibleMovies st)) st.
Proof. reflexivity. Qed.

(** The page after [renderList(); updateStats()]. *)
Lemma refresh_exec (st : Page) :
  exec (renderList ;; updateStats) st
  = set_statsText (Spec.stats (movies st))
      (set_listEl (fst (getVisibleMovies st)) st).
Proof.
  change (exec (renderList ;; updateStats) st)
    with (exec updateStats (exec renderList st)).
  rewrite updateStats_exec. reflexivity.
Qed.

Lemma addMovie_empty_title (rawTitle rawYear : JS.str) (st : Page) :
  sanitizeTitle rawTitle = [] ->
  exec (addMovie rawTitle rawYear) st = set_formHint emptyTitleHint st.
Proof. intros H. unfold addMovie. rewrite H. reflexivity. Qed.

Lemma addMovie_year_off (rawTitle rawYear : JS.str) (st : Page) :
  sanitizeTitle rawTitle <> [] ->
  yearLooksOff (parseYear rawYear) = true ->
  exec (addMovie rawTitle rawYear) st = set_formHint yearOutOfRangeHint st.
Proof.
  intros Ht Hy. unfold addMovie. fold (parseYear rawYear). rewrite Hy.
  destruct (sanitizeTitle rawTitle); [congruence|reflexivity].
Qed.

Lemma addMovie_duplicate (rawTitle rawYear : JS.str) (st : Page) :
  sanitizeTitle rawTitle <> [] ->
  yearLooksOff (parseYear rawYear) = false ->
  existsb (sameEntry (sanitizeTitle rawTitle) (parseYear rawYear)) (movies st)
  = true ->
  exec (addMovie rawTitle rawYear) st
  = set_formHint (duplicateHint (sanitizeTitle rawTitle)) st.
Proof.
  intros Ht Hy He. unfold addMovie. fold (parseYear rawYear). rewrite Hy.
  destruct (sanitizeTitle rawTitle) eqn:E; [congruence|].
  cbn [JS.truthyString negb]. unfold exec, bind, gets. cbn [fst snd].
  rewrite He. reflexivity.
Qed.

(** The page after an accepted submission. *)
Lemma addMovie_accepted (rawTitle rawYear : JS.str) (st : Page) :
  sanitizeTitle rawTitle <> [] ->
  yearLooksOff (parseYear rawYear) = false ->
  existsb (sameEntry (sanitizeTitle rawTitle) (parseYear rawYear)) (movies st)
  = false ->
  exec (addMovie rawTitle rawYear) st
  = exec (renderList ;; updateStats)
      (set_formHint (addedHint (sanitizeTitle rawTitle))
         (set_movies
            (movies st
             ++ [mkMovie (idOfDraw (randomCalls st)) (sanitizeTitle rawTitle)
                         (parseYear rawYear) false])
            (set_randomCalls (S (randomCalls st)) st))).
Proof.
  intros Ht Hy He. unfold addMovie. fold (parseYear rawYear). rewrite Hy.
  destruct (sanitizeTitle rawTitle) eqn:E; [congruence|].
  cbn [JS.truthyString negb]. unfold exec at 1. unfold bind at 1.
  unfold gets at 1. rewrite He. reflexivity.
Qed.

Lemma toggleWatched_exec (i : JS.str) (st : Page) :
  exec (toggleWatched i) st
  = match find (fun x => JS.eqs (id x) i) (movies st) with
    | None => st
    | Some _ => exec (renderList ;; updateStats)
                  (set_movies (flipFirst i (movies st)) st)
    end.
Proof.
  unfold toggleWatched, exec at 1, bind at 1, gets at 1.
  destruct (find _ (movies st)); reflexivity.
Qed.

Lemma removeMovie_exec (i : JS.str) (st : Page) :
  exec (removeMovie i) st
  = exec (renderList ;; updateStats)
      (set_movies (filter (fun m => negb (JS.eqs (id m) i)) (movies st)) st).
Proof. reflexivity. Qed.

Lemma movies_refresh (st : Page) :
  movies (exec (renderList ;; updateStats) st) = movies st.
Proof. rewrite refresh_exec. reflexivity. Qed.

Lemma randomCalls_refresh (st : Page) :
  randomCalls (exec (renderList ;; updateStats) st) = randomCalls st.
Proof. rewrite refresh_exec. reflexivity. Qed.

Lemma statsText_refresh (st : Page) :
  statsText (exec (renderList ;; updateStats) st) = Spec.stats (movies st).
Proof. rewrite refresh_exec. reflexivity. Qed.

(** The four ways [addMovie] can end, read off the catalog. *)
Lemma addMovie_movies (rawTitle rawYear : JS.str) (st : Page) :
  let clean := sanitizeTitle rawTitle in
  let yr := parseYear rawYear in
  movies (exec (addMovie rawTitle rawYear) st)
  = if negb (JS.truthyString clean) || yearLooksOff yr
       || existsb (sameEntry clean yr) (movies st)
    then movies st
    else (movies st ++ [mkMovie (idOfDraw (randomCalls st)) clean yr false]).
Proof.
  intros clean yr. subst clean yr.
  destruct (JS.truthyString (sanitizeTitle rawTitle)) eqn:Ht; cbn [negb orb].
  - assert (Hne : sanitizeTitle rawTitle <> [])
      by (intros E; rewrite E in Ht; discriminate).
    destruct (yearLooksOff (parseYear rawYear)) eqn:Hy; cbn [orb].
    + rewrite addMovie_year_off by assumption. reflexivity.
    + destruct (existsb _ (movies st)) eqn:He.
      * rewrite addMovie_duplicate by assumption. reflexivity.
      * rewrite addMovie_accepted by assumption.
        rewrite movies_refresh. reflexivity.
  - apply truthyString_false in Ht.
    rewrite addMovie_empty_title by assumption. reflexivity.
Qed.

End Operations.

(** ** Sessions *)

Section Sessions.

Context {host : Host}.

Lemma run_app (evs evs' : list Event) (st : Page) :
  run (evs ++ evs') st = run evs' (run evs st).
Proof.
  revert st. induction evs as [|ev rest IH]; intros st; [reflexivity|].
  cbn [app run]. apply IH.
Qed.

(** Induction over the pages a session goes through. *)
Lemma session_ind (P : Page -> Prop) :
  P (exec main blankPage) ->
  (forall st ev, P st -> P (exec (listener ev) st)) ->
  forall evs, P (session evs).
Proof.
  intros Hinit Hstep evs. unfold session.
  generalize (exec main blankPage) Hinit.
  induction evs as [|ev rest IH]; intros st Hst; [exact Hst|].
  cbn [run]. apply IH, Hstep, Hst.
Qed.

Lemma getVisibleMovies_run (st : Page) :
  getVisibleMovies st = (fst (getVisibleMovies st), st).
Proof. reflexivity. Qed.

Lemma pickRandom_frame (st : Page) :
  movies (exec pickRandom st) = movies st
  /\ statsText (exec pickRandom st) = statsText st
  /\ randomCalls st <= randomCalls (exec pickRandom st).
Proof.
  unfold pickRandom, exec, bind. rewrite (getVisibleMovies_run st).
  cbv beta iota.
  match goal with
  | |- context [Nat.eqb ?a 0] => destruct (Nat.eqb a 0)
  end; cbn [modify snd].
  - cbn. auto.
  - unfold random, bind, gets, modify, ret.
    match goal with
    | |- context [choose ?r ?v] => destruct (choose r v)
    end; cbn; auto.
Qed.

(** What one event can do to the catalog. *)
Lemma listener_catalog (ev : Event) (st : Page) :
  let st' := exec (listener ev) st in
  (movies st' = movies st /\ randomCalls st <= randomCalls st')
  \/ (exists t y,
        ev = Submit t y
        /\ sanitizeTitle t <> []
        /\ yearLooksOff (parseYear y) = false
        /\ existsb (sameEntry (sanitizeTitle t) (parseYear y)) (movies st)
           = false
        /\ movies st'
           = (movies st
              ++ [mkMovie (idOfDraw (randomCalls st)) (sanitizeTitle t)
                          (parseYear y) false])
        /\ randomCalls st' = S (randomCalls st))
  \/ (exists i,
        ev = ClickToggle i
        /\ movies st' = flipFirst i (movies st)
        /\ randomCalls st' = randomCalls st)
  \/ (exists i,
        ev = ClickRemove i
        /\ movies st' = filter (fun m => negb (JS.eqs (id m) i)) (movies st)
        /\ randomCalls st' = randomCalls st).
Proof.
  cbv zeta. destruct ev as [t y|i|i|v|v|]; cbn [listener].
  - destruct (JS.truthyString (sanitizeTitle t)) eqn:Ht.
    + assert (Hne : sanitizeTitle t <> [])
        by (intros E; rewrite E in Ht; discriminate).
      destruct (yearLooksOff (parseYear y)) eqn:Hy.
      * left. rewrite addMovie_year_off by assumption. cbn. auto.
      * destruct (existsb (sameEntry (sanitizeTitle t) (parseYear y))
                    (movies st)) eqn:He.
        -- left. rewrite addMovie_duplicate by assumption. cbn. auto.
        -- right. left. exists t, y.
           rewrite addMovie_accepted by assumption.
           rewrite movies_refresh, randomCalls_refresh. cbn. auto 10.
    + apply truthyString_false in Ht. left.
      rewrite addMovie_empty_title by assumption. cbn. auto.
  - rewrite toggleWatched_exec.
    destruct (find _ (movies st)).
    + right. right. left. exists i.
      rewrite movies_refresh, randomCalls_refresh. cbn. auto.
    + left. auto.
  - right. right. right. exists i.
    rewrite removeMovie_exec, movies_refresh, randomCalls_refresh. cbn. auto.
  - left. split; reflexivity.
  - left. split; reflexivity.
  - left. pose proof (pickRandom_frame st). tauto.
Qed.

(** After an event the stats line is either untouched, with the catalog,
    or freshly computed from the catalog. *)
Lemma listener_stats (ev : Event) (st : Page) :
  let st' := exec (listener ev) st in
  (movies st' = movies st /\ statsText st' = statsText st)
  \/ statsText st' = Spec.stats (movies st').
Proof.
  cbv zeta. destruct ev as [t y|i|i|v|v|]; cbn [listener].
  - destruct (JS.truthyString (sanitizeTitle t)) eqn:Ht.
    + assert (Hne : sanitizeTitle t <> [])
        by (intros E; rewrite E in Ht; discriminate).
      destruct (yearLooksOff (parseYear y)) eqn:Hy.
      * left. rewrite addMovie_year_off by assumption. cbn. auto.
      * destruct (existsb (sameEntry (sanitizeTitle t) (parseYear y))
                    (movies st)) eqn:He.
        -- left. rewrite addMovie_duplicate by assumption. cbn. auto.
        -- right. rewrite addMovie_accepted by assumption.
           rewrite movies_refresh, statsText_refresh. reflexivity.
    + apply truthyString_false in Ht. left.
      rewrite addMovie_empty_title by assumption. cbn. auto.
  - rewrite toggleWatched_exec.
    destruct (find _ (movies st)).
    + right. rewrite movies_refresh, statsText_refresh. reflexivity.
    + left. auto.
  - right. rewrite removeMovie_exec, movies_refresh, statsText_refresh.
    reflexivity.
  - right.
    change (exec (modify (set_currentFilter v) ;; renderList ;; updateStats) st)
      with (exec (renderList ;; updateStats) (set_currentFilter v st)).
    rewrite movies_refresh, statsText_refresh. reflexivity.
  - right.
    change (exec (modify (set_currentQuery v) ;; renderList ;; updateStats) st)
      with (exec (renderList ;; updateStats) (set_currentQuery v st)).
    rewrite movies_refresh, statsText_refresh. reflexivity.
  - left. pose proof (pickRandom_frame st). tauto.
Qed.

Lemma main_exec :
  exec main blankPage
  = mkPage
      [ mkMovie (idOfDraw 0) (JS.lit "The Iron Giant") (Num (JS.ofZ 1999))
          false;
        mkMovie (idOfDraw 1) (JS.lit "Get Out") (Num (JS.ofZ 2017)) true;
        mkMovie (idOfDraw 2) (JS.lit "Your Name") (Num (JS.ofZ 2016)) false ]
      (JS.lit "all") []
      [ mkMovie (idOfDraw 0) (JS.lit "The Iron Giant") (Num (JS.ofZ 1999))
          false;
        mkMovie (idOfDraw 1) (JS.lit "Get Out") (Num (JS.ofZ 2017)) true;
        mkMovie (idOfDraw 2) (JS.lit "Your Name") (Num (JS.ofZ 2016)) false ]
      (mkStats 3 1 2)
      (mkHint (JS.lit "Add a movie to get started.") (JS.lit "muted"))
      Untouched 3.
Proof.
  cbv [main exec bind gets modify ret cryptoRandomId random renderList
       getVisibleMovies updateStats showHint fst snd set_movies
       set_currentFilter set_currentQuery set_listEl set_randomCalls
       set_statsText set_formHint movies currentFilter currentQuery listEl
       statsText formHint randomOut randomCalls blankPage].
  change (JS.trim (JS.lit "")) with (@nil N).
  rewrite toLowerCase_empty. reflexivity.
Qed.

End Sessions.

(** C7. The stats line is computed over the whole catalog, whatever the
    filter and the search text: in every page a session reaches it shows
    total = |catalog|, watchedCount = number of watched records and
    remaining = total - watchedCount, so total = watchedCount + remaining;
    and whenever an event changes the catalog, the stats line of the page it
    leaves is the one computed from the new catalog. *)
Theorem stats_follow_catalog (host : Host) :
  (forall evs,
     statsText (session evs) = Spec.stats (movies (session evs))
     /\ total (statsText (session evs))
        = (watchedCount (statsText (session evs))
           + remaining (statsText (session evs)))%Z)
  /\ (forall st ev,
        movies (exec (listener ev) st) <> movies st ->
        statsText (exec (listener ev) st)
        = Spec.stats (movies (exec (listener ev) st))).
Proof.
  assert (Inv : forall evs,
            statsText (session evs) = Spec.stats (movies (session evs))).
  { apply (session_ind
             (fun st => statsText st = Spec.stats (movies st))).
    - rewrite main_exec. reflexivity.
    - intros st ev Hst.
      destruct (listener_stats ev st) as [[Hm Hs]|Hs].
      + rewrite Hs, Hm. exact Hst.
      + exact Hs. }
  split.
  - intros evs. split; [apply Inv|]. rewrite Inv. cbn. lia.
  - intros st ev Hch.
    destruct (listener_stats ev st) as [[Hm _]|Hs]; [contradiction|exact Hs].
Qed.

Lemma stats_follow_catalog_witness :
  movies (exec (@listener Demo.halving (ClickRemove (JS.lit "9")))
            (@session Demo.halving []))
  <> movies (@session Demo.halving [])
  /\ statsText (exec (@listener Demo.halving (ClickRemove (JS.lit "9")))
                  (@session Demo.halving []))
     = mkStats 2 0 2.
Proof.
  assert (H : movies (exec (@listener Demo.halving (ClickRemove (JS.lit "9")))
                        (@session Demo.halving []))
              <> movies (@session Demo.halving []))
    by (vm_compute; discriminate).
  split; [exact H|].
  rewrite (proj2 (stats_follow_catalog Demo.halving) _ _ H).
  vm_compute. reflexivity.
Defined.

(** ** Toggle and remove *)

Section ToggleRemove.

Lemma toggled_toggled (m : Movie) : toggled (toggled m) = m.
Proof.
  destruct m as [i t y w]. unfold toggled. cbn.
  now rewrite negb_involutive.
Qed.

Lemma flipFirst_length (i : JS.str) (ms : list Movie) :
  List.length (flipFirst i ms) = List.length ms.
Proof.
  induction ms as [|m rest IH]; [reflexivity|].
  cbn [flipFirst]. destruct (JS.eqs (id m) i); cbn; congruence.
Qed.

Lemma flipFirst_fields (i : JS.str) (ms : list Movie) :
  map id (flipFirst i ms) = map id ms
  /\ map title (flipFirst i ms) = map title ms
  /\ map year (flipFirst i ms) = map year ms.
Proof.
  induction ms as [|m rest (IH1 & IH2 & IH3)]; [auto|].
  cbn [flipFirst]. destruct (JS.eqs (id m) i); cbn [map].
  - auto.
  - rewrite IH1, IH2, IH3. auto.
Qed.

Lemma flipFirst_find (i : JS.str) (ms : list Movie) (m : Movie) :
  find (fun x => JS.eqs (id x) i) ms = Some m ->
  find (fun x => JS.eqs (id x) i) (flipFirst i ms) = Some (toggled m).
Proof.
  induction ms as [|a rest IH]; [discriminate|].
  cbn [find flipFirst]. destruct (JS.eqs (id a) i) eqn:Ha.
  - intros [= <-]. cbn [find id]. rewrite Ha. reflexivity.
  - intros H. cbn [find]. rewrite Ha. auto.
Qed.

Lemma flipFirst_twice (i : JS.str) (ms : list Movie) :
  flipFirst i (flipFirst i ms) = ms.
Proof.
  induction ms as [|a rest IH]; [reflexivity|].
  cbn [flipFirst]. destruct (JS.eqs (id a) i) eqn:Ha.
  - cbn [flipFirst id]. rewrite Ha.
    change (toggled (toggled a) :: rest = a :: rest).
    now rewrite toggled_toggled.
  - cbn [flipFirst]. rewrite Ha. congruence.
Qed.

(** Slot by slot: a record is left as it was, or it is the first record
    with the id and only its flag turned. *)
Lemma flipFirst_nth (i : JS.str) (ms : list Movie) (k : nat) (m m' : Movie) :
  nth_error ms k = Some m ->
  nth_error (flipFirst i ms) k = Some m' ->
  m' = m
  \/ (m' = toggled m /\ id m = i
      /\ forall j mj, j < k -> nth_error ms j = Some mj -> id mj <> i).
Proof.
  revert k. induction ms as [|a rest IH]; intros k; [destruct k; discriminate|].
  cbn [flipFirst]. destruct (JS.eqs (id a) i) eqn:Ha.
  - destruct k as [|k']; cbn [nth_error].
    + intros [= <-] [= <-]. right. apply eqs_eq in Ha.
      repeat split; auto. intros j mj Hj. lia.
    + intros H1 H2. left. congruence.
  - destruct k as [|k']; cbn [nth_error].
    + intros [= <-] [= <-]. left. reflexivity.
    + intros H1 H2. destruct (IH k' H1 H2) as [E|(E & Hi & Hfirst)]; [auto|].
      right. repeat split; auto.
      intros j mj Hj. destruct j as [|j']; cbn [nth_error].
      * intros [= <-]. apply eqs_neq. exact Ha.
      * apply Hfirst. lia.
Qed.

Lemma filter_keeps_all (i : JS.str) (ms : list Movie) :
  (forall m, In m ms -> id m <> i) ->
  filter (fun m => negb (JS.eqs (id m) i)) ms = ms.
Proof.
  induction ms as [|a rest IH]; intros H; [reflexivity|].
  cbn [filter].
  destruct (eqs_spec (id a) i) as [E|_].
  - exfalso. apply (H a); [left; reflexivity|exact E].
  - cbn [negb]. f_equal. apply IH. intros m Hm. apply H. right. exact Hm.
Qed.

End ToggleRemove.

(** C8. Toggling flips the flag of the record the lookup finds; toggling the
    same id twice in succession leaves every record of the catalog, and so
    the flag of every record with that id, as it was at the start; and a
    toggle, whether or not the id is found, never changes the length of the
    catalog. *)
Theorem toggle_twice_restores (host : Host) (st : Page) (i : JS.str) :
  let once := exec (toggleWatched i) st in
  let twice := exec (toggleWatched i) once in
  (forall m,
     find (fun x => JS.eqs (id x) i) (movies st) = Some m ->
     find (fun x => JS.eqs (id x) i) (movies once) = Some (toggled m)
     /\ find (fun x => JS.eqs (id x) i) (movies twice) = Some m)
  /\ (forall k m,
        nth_error (movies st) k = Some m -> id m = i ->
        exists m2, nth_error (movies twice) k = Some m2
                   /\ watched m2 = watched m)
  /\ movies twice = movies st
  /\ List.length (movies once) = List.length (movies st).
Proof.
  cbv zeta.
  assert (H1 : movies (exec (toggleWatched i) st)
               = match find (fun x => JS.eqs (id x) i) (movies st) with
                 | Some _ => flipFirst i (movies st)
                 | None => movies st
                 end).
  { rewrite toggleWatched_exec. destruct (find _ (movies st)).
    - apply movies_refresh.
    - reflexivity. }
  assert (H2 : movies (exec (toggleWatched i) (exec (toggleWatched i) st))
               = movies st).
  { rewrite (toggleWatched_exec i (exec (toggleWatched i) st)), H1.
    destruct (find _ (movies st)) as [m|] eqn:Hf.
    - rewrite (flipFirst_find _ _ _ Hf), movies_refresh.
      cbn [movies set_movies]. apply flipFirst_twice.
    - rewrite Hf. exact H1. }
  repeat split.
  - rewrite H1, H. apply flipFirst_find, H.
  - rewrite H2. exact H.
  - intros k m Hk _. exists m. rewrite H2. auto.
  - exact H2.
  - rewrite H1. destruct (find _ (movies st));
      [apply flipFirst_length|reflexivity].
Qed.

Lemma toggle_twice_restores_witness :
  let st := @session Demo.halving [] in
  let seed2 :=
    mkMovie (JS.lit "9") (JS.lit "Get Out") (Num (JS.ofZ 2017)) true in
  find (fun x => JS.eqs (id x) (JS.lit "9")) (movies st) = Some seed2
  /\ find (fun x => JS.eqs (id x) (JS.lit "9"))
       (movies (exec (@toggleWatched Demo.halving (JS.lit "9")) st))
     = Some (toggled seed2)
  /\ watched (toggled seed2) = false.
Proof.
  cbv zeta.
  assert (H : find (fun x => JS.eqs (id x) (JS.lit "9"))
                (movies (@session Demo.halving []))
              = Some (mkMovie (JS.lit "9") (JS.lit "Get Out")
                  (Num (JS.ofZ 2017)) true))
    by (vm_compute; reflexivity).
  split; [exact H|]. split; [|reflexivity].
  exact (proj1 (proj1 (toggle_twice_restores Demo.halving
                         (@session Demo.halving []) (JS.lit "9")) _ H)).
Defined.

(** C10. A toggle changes nothing but one flag: the length of the catalog
    and, slot by slot, the id, title and year of every record stay as they
    were (so the order does too); a record whose id is not the toggled one
    keeps its flag; and a slot that does change holds the first record with
    that id, with its flag turned and nothing else. *)
Theorem toggle_changes_one_flag (host : Host) (st : Page) (i : JS.str) :
  let ms := movies st in
  let ms' := movies (exec (toggleWatched i) st) in
  List.length ms' = List.length ms
  /\ map id ms' = map id ms
  /\ map title ms' = map title ms
  /\ map year ms' = map year ms
  /\ (forall k m m',
        nth_error ms k = Some m -> nth_error ms' k = Some m' ->
        id m <> i -> watched m' = watched m)
  /\ (forall k m m',
        nth_error ms k = Some m -> nth_error ms' k = Some m' ->
        m' = m
        \/ (m' = toggled m /\ id m = i
            /\ forall j mj, j < k -> nth_error ms j = Some mj -> id mj <> i)).
Proof.
  cbv zeta. rewrite toggleWatched_exec.
  destruct (find _ (movies st)) as [found|] eqn:Hf.
  - rewrite movies_refresh. cbn [movies set_movies].
    destruct (flipFirst_fields i (movies st)) as (Hi & Ht & Hy).
    repeat split; auto using flipFirst_length.
    + intros k m m' Hk Hk' Hne.
      destruct (flipFirst_nth i _ k m m' Hk Hk') as [->|(_ & E & _)];
        [reflexivity|contradiction].
    + intros k m m'. apply flipFirst_nth.
  - repeat split; auto.
    + intros k m m' Hk Hk' _. congruence.
    + intros k m m' Hk Hk'. left. congruence.
Qed.

Lemma toggle_changes_one_flag_witness :
  let st := @session Demo.halving [] in
  let seed1 :=
    mkMovie (JS.lit "i") (JS.lit "The Iron Giant") (Num (JS.ofZ 1999)) false in
  nth_error (movies st) 0 = Some seed1
  /\ nth_error (movies (exec (@toggleWatched Demo.halving (JS.lit "9")) st)) 0
     = Some seed1
  /\ id seed1 <> (JS.lit "9")
  /\ watched seed1 = watched seed1.
Proof.
  cbv zeta.
  assert (H1 : nth_error (movies (@session Demo.halving [])) 0
               = Some (mkMovie (JS.lit "i") (JS.lit "The Iron Giant")
                   (Num (JS.ofZ 1999)) false))
    by (vm_compute; reflexivity).
  assert (H2 : nth_error
                 (movies (exec (@toggleWatched Demo.halving (JS.lit "9"))
                            (@session Demo.halving []))) 0
               = Some (mkMovie (JS.lit "i") (JS.lit "The Iron Giant")
                   (Num (JS.ofZ 1999)) false))
    by (vm_compute; reflexivity).
  assert (H3 : id
      (mkMovie (JS.lit "i") (JS.lit "The Iron Giant") (Num (JS.ofZ 1999)) false)
               <> (JS.lit "9")) by (cbn; discriminate).
  split; [exact H1|]. split; [exact H2|]. split; [exact H3|].
  exact (proj1 (proj2 (proj2 (proj2 (proj2
           (toggle_changes_one_flag Demo.halving
              (@session Demo.halving []) (JS.lit "9")))))) 0 _ _ H1 H2 H3).
Defined.

(** C9. Removing an id that no stored record carries leaves the catalog as
    it was, field for field: the same records with the same id, title, year
    and flag, in the same order. *)
Theorem remove_missing_id (host : Host) (st : Page) (i : JS.str) :
  (forall m, In m (movies st) -> id m <> i) ->
  movies (exec (removeMovie i) st) = movies st.
Proof.
  intros H. rewrite removeMovie_exec, movies_refresh.
  cbn [movies set_movies]. apply filter_keeps_all, H.
Qed.

Lemma remove_missing_id_witness :
  (forall m, In m (movies (@session Demo.halving [])) -> id m <> (JS.lit "zz"))
  /\ movies (exec (@removeMovie Demo.halving (JS.lit "zz"))
               (@session Demo.halving []))
     = movies (@session Demo.halving []).
Proof.
  assert (H : forall m, In m (movies (@session Demo.halving [])) ->
                        id m <> (JS.lit "zz")).
  { intros m Hm. vm_compute in Hm.
    destruct Hm as [<-|[<-|[<-|[]]]]; cbn; discriminate. }
  split; [exact H|].
  exact (remove_missing_id Demo.halving (@session Demo.halving [])
           (JS.lit "zz") H).
Defined.

(** ** View projection *)

Section Projection.

Context {host : Host}.

Lemma startsWith_app (sub s : JS.str) :
  JS.startsWith sub s = true <-> exists post, s = sub ++ post.
Proof.
  revert s. induction sub as [|a r IH]; intros s.
  - split; [intros _; exists s; reflexivity|reflexivity].
  - destruct s as [|b t]; cbn [JS.startsWith].
    + split; [discriminate|]. intros [post H]. discriminate.
    + rewrite andb_true_iff, N.eqb_eq, IH. split.
      * intros [-> [post ->]]. exists post. reflexivity.
      * intros [post H]. cbn in H. injection H as -> ->. eauto.
Qed.

(** [includes] decides the substring relation of the specification. *)
Lemma includes_substring (s sub : JS.str) :
  JS.includes s sub = true <-> Spec.substring_of sub s.
Proof.
  unfold Spec.substring_of. split.
  - induction s as [|c r IH]; cbn [JS.includes].
    + rewrite orb_false_r. intros H. apply startsWith_app in H.
      destruct H as [post H]. exists [], post. exact H.
    + intros H. apply orb_true_iff in H. destruct H as [H|H].
      * apply startsWith_app in H. destruct H as [post H].
        exists [], post. exact H.
      * destruct (IH H) as (pre & post & E).
        exists (c :: pre), post. cbn. now rewrite E.
  - intros (pre & post & E). revert s E.
    induction pre as [|c pre' IH]; intros s E.
    + cbn in E. destruct s; cbn [JS.includes]; apply orb_true_iff; left;
        apply startsWith_app; exists post; exact E.
    + destruct s as [|c' r]; [discriminate|].
      cbn in E. injection E as -> E.
      cbn [JS.includes]. apply orb_true_iff. right. apply IH, E.
Qed.

Lemma matchesFilter_status (f : Spec.StatusFilter) (m : Movie) :
  matchesFilter (Spec.filterValue f) m = true <-> Spec.statusPasses f m.
Proof.
  destruct f; unfold matchesFilter, Spec.statusPasses;
    cbn [Spec.filterValue]; destruct (watched m); vm_compute;
    intuition discriminate.
Qed.

Lemma matchesQuery_search (query : JS.str) (m : Movie) :
  matchesQuery (toLowerCase (JS.trim query)) m = true
  <-> Spec.searchPasses query m.
Proof.
  unfold matchesQuery, Spec.searchPasses. split.
  - intros H. right. rewrite <- trim_spec.
    apply orb_true_iff in H. destruct H as [H|H].
    + apply negb_true_iff, truthyString_false in H. rewrite H.
      exists [], (toLowerCase (title m)). reflexivity.
    + apply includes_substring, H.
  - intros [->|H].
    + change (JS.trim []) with (@nil N). rewrite toLowerCase_empty.
      reflexivity.
    + apply orb_true_iff. right. apply includes_substring.
      rewrite trim_spec. exact H.
Qed.

Lemma filter_true (A : Type) (p : A -> bool) (l : list A) :
  (forall x, p x = true) -> filter p l = l.
Proof.
  intros H. induction l as [|a rest IH]; [reflexivity|].
  cbn [filter]. rewrite H, IH. reflexivity.
Qed.

End Projection.

(** C6. With the status filter set to all, watched or unwatched, the view
    projection leaves the page as it is and returns the catalog filtered,
    in catalog order, by a test that holds of a record exactly when the
    status filter passes (all: always; watched: the flag is set; unwatched:
    it is not) and the search passes (the search text is empty, or the
    lowercased title contains the trimmed, lowercased text).  With the
    filter on all and an empty search text it returns the whole catalog. *)
Theorem view_projection (host : Host) (st : Page) (f : Spec.StatusFilter) :
  currentFilter st = Spec.filterValue f ->
  let visible := fst (getVisibleMovies st) in
  snd (getVisibleMovies st) = st
  /\ (exists keep,
        visible = filter keep (movies st)
        /\ forall m, keep m = true
                     <-> Spec.statusPasses f m
                         /\ Spec.searchPasses (currentQuery st) m)
  /\ (forall m, In m visible
                <-> In m (movies st)
                    /\ Spec.statusPasses f m
                    /\ Spec.searchPasses (currentQuery st) m)
  /\ (f = Spec.All -> currentQuery st = [] -> visible = movies st).
Proof.
  intros Hf. cbv zeta.
  set (keep := fun m => matchesFilter (currentFilter st) m
                        && matchesQuery
                            (toLowerCase (JS.trim (currentQuery st))) m).
  assert (Hv : fst (getVisibleMovies st) = filter keep (movies st))
    by reflexivity.
  assert (Hk : forall m, keep m = true
                         <-> Spec.statusPasses f m
                             /\ Spec.searchPasses (currentQuery st) m).
  { intros m. unfold keep. rewrite andb_true_iff, Hf.
    rewrite matchesFilter_status, matchesQuery_search. reflexivity. }
  split; [reflexivity|]. split; [exists keep; auto|]. split.
  - intros m. rewrite Hv, filter_In, Hk. reflexivity.
  - intros -> Hq. rewrite Hv. apply filter_true. intros m.
    apply Hk. split; [exact I|]. left. exact Hq.
Qed.

Lemma view_projection_witness :
  let host := Demo.halving in
  let st :=
    session
      [InputSearch (160%N :: JS.lit "E "); ChangeFilter (JS.lit "watched")] in
  currentFilter st = Spec.filterValue Spec.Watched
  /\ fst (getVisibleMovies st)
     = [mkMovie (JS.lit "9") (JS.lit "Get Out") (Num (JS.ofZ 2017)) true]
  /\ (In (mkMovie (JS.lit "9") (JS.lit "Get Out") (Num (JS.ofZ 2017)) true)
         (fst (getVisibleMovies st))
      <-> In (mkMovie (JS.lit "9") (JS.lit "Get Out") (Num (JS.ofZ 2017)) true)
          (movies st)
          /\ Spec.statusPasses Spec.Watched
               (mkMovie (JS.lit "9") (JS.lit "Get Out") (Num (JS.ofZ 2017))
                   true)
          /\ Spec.searchPasses (currentQuery st)
               (mkMovie (JS.lit "9") (JS.lit "Get Out") (Num (JS.ofZ 2017))
                   true)).
Proof.
  cbv zeta.
  assert (H : currentFilter
                (@session Demo.halving
                   [InputSearch (160%N :: JS.lit "E "); ChangeFilter
                       (JS.lit "watched")])
              = Spec.filterValue Spec.Watched) by (vm_compute; reflexivity).
  split; [exact H|]. split; [vm_compute; reflexivity|].
  exact (proj1 (proj2 (proj2
           (view_projection Demo.halving _ Spec.Watched H))) _).
Defined.

(** ** Invariants of the catalog *)

Section Invariants.

Context {host : Host}.

Lemma sameKey_sym (a b : Movie) : sameKey a b = sameKey b a.
Proof.
  unfold sameKey. rewrite eqs_sym, strictEq_sym. reflexivity.
Qed.

Lemma Forall_flipFirst (P : Movie -> Prop) (i : JS.str) (ms : list Movie) :
  (forall m, P m -> P (toggled m)) ->
  Forall P ms -> Forall P (flipFirst i ms).
Proof.
  intros Hp. induction 1 as [|m rest Hm Hrest IH]; [constructor|].
  cbn [flipFirst]. destruct (JS.eqs (id m) i); constructor; auto.
  apply (Hp m Hm).
Qed.

Lemma Forall_filter_keep (A : Type) (P : A -> Prop) (p : A -> bool)
    (l : list A) :
  Forall P l -> Forall P (filter p l).
Proof.
  induction 1 as [|a rest Ha Hrest IH]; [constructor|].
  cbn [filter]. destruct (p a); [constructor|]; assumption.
Qed.

Lemma distinctEntries_flipFirst (i : JS.str) (ms : list Movie) :
  distinctEntries ms -> distinctEntries (flipFirst i ms).
Proof.
  induction ms as [|m rest IH]; [auto|].
  cbn [distinctEntries flipFirst]. intros [Hm Hrest].
  destruct (JS.eqs (id m) i); cbn [distinctEntries].
  - split; [exact Hm|exact Hrest].
  - split; [|auto]. apply Forall_flipFirst; [|exact Hm].
    intros m' H. exact H.
Qed.

Lemma distinctEntries_filter (p : Movie -> bool) (ms : list Movie) :
  distinctEntries ms -> distinctEntries (filter p ms).
Proof.
  induction ms as [|m rest IH]; [auto|].
  cbn [distinctEntries filter]. intros [Hm Hrest].
  destruct (p m); cbn [distinctEntries]; auto using Forall_filter_keep.
Qed.

Lemma distinctEntries_push (ms : list Movie) (new : Movie) :
  distinctEntries ms ->
  Forall (fun m => sameKey m new = false) ms ->
  distinctEntries (ms ++ [new]).
Proof.
  induction ms as [|m rest IH]; cbn [distinctEntries app].
  - intros _ _. split; [constructor|exact I].
  - intros [Hm Hrest] Hnew. inversion Hnew as [|? ? Hmn Hrn]; subst.
    split; [|auto]. apply Forall_app. split; [exact Hm|].
    constructor; [exact Hmn|constructor].
Qed.

Lemma distinctEntries_nth (ms : list Movie) (j k : nat) (mj mk : Movie) :
  distinctEntries ms -> j <> k ->
  nth_error ms j = Some mj -> nth_error ms k = Some mk ->
  sameKey mj mk = false.
Proof.
  revert j k. induction ms as [|m rest IH]; intros j k Hd Hjk Hj Hk.
  - destruct j; discriminate.
  - destruct Hd as [Hm Hrest]. rewrite Forall_forall in Hm.
    destruct j as [|j'], k as [|k']; cbn [nth_error] in Hj, Hk.
    + congruence.
    + injection Hj as <-. apply Hm. eapply nth_error_In, Hk.
    + injection Hk as <-. rewrite sameKey_sym. apply Hm.
      eapply nth_error_In, Hj.
    + apply (IH j' k'); auto.
Qed.

(** A record the duplicate test lets through shares its entry with no
    stored record. *)
Lemma not_sameEntry_sameKey (clean : JS.str) (yr : Year) (i : JS.str)
    (ms : list Movie) :
  existsb (sameEntry clean yr) ms = false ->
  Forall (fun m => sameKey m (mkMovie i clean yr false) = false) ms.
Proof.
  intros He. apply Forall_forall. intros m Hm.
  destruct (sameKey m (mkMovie i clean yr false)) eqn:Hk; [|reflexivity].
  unfold sameKey in Hk. cbn [title year] in Hk.
  apply andb_true_iff in Hk. destruct Hk as [Ht Hy].
  assert (Hs : sameEntry clean yr m = true).
  { unfold sameEntry. rewrite Ht, Hy.
    destruct (strictEq_alike _ _ Hy) as [-> _].
    rewrite eqb_reflx. reflexivity. }
  assert (existsb (sameEntry clean yr) ms = true)
    by (apply existsb_exists; exists m; auto).
  congruence.
Qed.

(** Every stored record went through the checks of [addMovie], and no two
    of them carry the same entry. *)
Lemma catalog_invariant (evs : list Event) :
  Forall wellFormed (movies (session evs))
  /\ distinctEntries (movies (session evs)).
Proof.
  apply (session_ind
           (fun st => Forall wellFormed (movies st)
                      /\ distinctEntries (movies st))).
  - rewrite main_exec. cbn [movies]. split.
    + repeat constructor; cbn [title]; try discriminate.
    + cbn [distinctEntries]. repeat split; repeat constructor;
        apply andb_false_iff; right; vm_compute; reflexivity.
  - intros st ev [Hw Hd].
    destruct (listener_catalog ev st)
      as [[Hm _]|[(t & y & _ & Ht & Hy & He & Hm & _)
                 |[(i & _ & Hm & _)|(i & _ & Hm & _)]]];
      rewrite Hm.
    + auto.
    + split.
      * apply Forall_app. split; [exact Hw|].
        constructor; [|constructor]. split; assumption.
      * apply distinctEntries_push; [exact Hd|].
        apply not_sameEntry_sameKey, He.
    + split.
      * apply Forall_flipFirst; [|exact Hw]. intros m H. exact H.
      * apply distinctEntries_flipFirst, Hd.
    + split.
      * apply Forall_filter_keep, Hw.
      * apply distinctEntries_filter, Hd.
Qed.

End Invariants.

(** C2, as amended.  In every page a session reaches, every stored record
    has a non-empty title, and its year is null or a number; when that
    number is neither zero nor NaN it lies between 1888 and 2100.  It need
    not be an integer. *)
Theorem stored_records_valid (host : Host) (evs : list Event) (m : Movie) :
  In m (movies (session evs)) ->
  title m <> []
  /\ (year m = Null
      \/ exists x, year m = Num x
                   /\ (JS.truthyNumber x = true -> withinBounds x)).
Proof.
  intros Hm. destruct (catalog_invariant evs) as [Hw _].
  rewrite Forall_forall in Hw. destruct (Hw m Hm) as [Ht Hy].
  split; [exact Ht|].
  destruct (year m) as [|x]; [left; reflexivity|right].
  exists x. split; [reflexivity|]. apply accepted_within_bounds, Hy.
Qed.

Lemma stored_records_valid_witness :
  let m := mkMovie (JS.lit "29") (JS.lit "Dune") (Num (JS.ofZ 1888)) false in
  In m (movies (@session Demo.halving [Submit (JS.lit "dune") (JS.lit "1888")]))
  /\ title m <> []
  /\ (year m = Null
      \/ exists x, year m = Num x
                   /\ (JS.truthyNumber x = true -> withinBounds x)).
Proof.
  cbv zeta.
  assert (H : In
      (mkMovie (JS.lit "29") (JS.lit "Dune") (Num (JS.ofZ 1888)) false)
                (movies (@session Demo.halving
                    [Submit (JS.lit "dune") (JS.lit "1888")])))
    by (vm_compute; auto).
  split; [exact H|].
  exact (stored_records_valid Demo.halving _ _ H).
Defined.

(** C2, as stated, fails: a year field of "1999.5" is stored as the number
    1999.5, which is not an integer. *)
Lemma stored_year_not_integer :
  ~ (forall m,
       In m (movies (@session Demo.halving
                       [Submit (JS.lit "Dune") (JS.lit "1999.5")])) ->
       title m <> []
       /\ (year m = Null
           \/ exists x, year m = Num x /\ Spec.integerInRange x)).
Proof.
  intros H.
  destruct (H
      (mkMovie (JS.lit "29") (JS.lit "Dune") (Num (JS.Number (JS.lit "1999.5")))
          false))
    as [_ [E|(x & E & Hint & _)]].
  - vm_compute. auto.
  - discriminate.
  - injection E as <-. vm_compute in Hint. discriminate.
Qed.

(** ** Submitting the same entry twice *)

Section Resubmission.

Context {host : Host}.

(** Once an entry with a title, a year within the check and a year that is
    not NaN has been submitted, the catalog holds a record the duplicate
    test finds. *)
Lemma submitted_entry_found (rawTitle rawYear : JS.str) (st : Page) :
  JS.truthyString (sanitizeTitle rawTitle) = true ->
  yearLooksOff (parseYear rawYear) = false ->
  strictEq (parseYear rawYear) (parseYear rawYear) = true ->
  existsb (sameEntry (sanitizeTitle rawTitle) (parseYear rawYear))
    (movies (exec (addMovie rawTitle rawYear) st)) = true.
Proof.
  intros Ht Hoff Hy. rewrite addMovie_movies. cbv zeta.
  rewrite Ht, Hoff. cbn [negb orb].
  destruct (existsb _ (movies st)) eqn:He; [exact He|].
  rewrite existsb_app, He. cbn [existsb orb].
  unfold sameEntry. cbn [title year].
  rewrite eqs_refl, eqb_reflx, Hy. reflexivity.
Qed.

(** Submitted a second time in a row, an entry whose year is not NaN never
    lengthens the catalog again: only the first submission can be kept. *)
Lemma second_submission_refused (rawTitle rawYear : JS.str) (st : Page) :
  strictEq (parseYear rawYear) (parseYear rawYear) = true ->
  let st1 := exec (addMovie rawTitle rawYear) st in
  movies (exec (addMovie rawTitle rawYear) st1) = movies st1.
Proof.
  intros Hy. cbv zeta.
  rewrite (addMovie_movies rawTitle rawYear
             (exec (addMovie rawTitle rawYear) st)).
  cbv zeta.
  destruct (JS.truthyString (sanitizeTitle rawTitle)) eqn:Ht;
    [|reflexivity].
  destruct (yearLooksOff (parseYear rawYear)) eqn:Hoff; [reflexivity|].
  rewrite (submitted_entry_found _ _ st Ht Hoff Hy). reflexivity.
Qed.

(** In every page a session reaches: submitting a title whose normalized
    form equals, up to case, the title of a stored record, with a year that
    matches that record's year (both null, or both equal integers; more
    generally, equal under [===]), is refused with the duplicate hint and
    leaves the catalog, and all of the page but the hint, as it was; and no
    two stored records carry the same lowercased title together with years
    equal under [===].  A NaN year is equal to nothing under [===], itself
    included, so none of this covers it. *)
Lemma comparable_duplicates_refused (evs : list Event) :
  lowerKeepsText ->
  let st := session evs in
  (forall rawTitle rawYear m,
     In m (movies st) ->
     toLowerCase (title m) = toLowerCase (sanitizeTitle rawTitle) ->
     Spec.yearsMatch (year m) (parseYear rawYear)
     \/ strictEq (year m) (parseYear rawYear) = true ->
     exec (addMovie rawTitle rawYear) st
     = set_formHint (duplicateHint (sanitizeTitle rawTitle)) st
     /\ movies (exec (addMovie rawTitle rawYear) st) = movies st)
  /\ (forall j k mj mk,
        j <> k ->
        nth_error (movies st) j = Some mj ->
        nth_error (movies st) k = Some mk ->
        ~ (toLowerCase (title mj) = toLowerCase (title mk)
           /\ (Spec.yearsMatch (year mj) (year mk)
               \/ strictEq (year mj) (year mk) = true))).
Proof.
  intros Hlow. cbv zeta. destruct (catalog_invariant evs) as [Hw Hd].
  assert (Hmatch : forall a b,
            Spec.yearsMatch a b \/ strictEq a b = true -> strictEq a b = true)
    by (intros a b [H|H]; [apply yearsMatch_strictEq, H|exact H]).
  split.
  - intros rawTitle rawYear m Hm Ht Hy. apply Hmatch in Hy.
    rewrite Forall_forall in Hw. destruct (Hw m Hm) as [Hne Hoff].
    destruct (strictEq_alike _ _ Hy) as [Htr Hlo].
    assert (E : exec (addMovie rawTitle rawYear) (session evs)
                = set_formHint (duplicateHint (sanitizeTitle rawTitle))
                    (session evs)).
    { apply addMovie_duplicate.
      - intros E. rewrite E, toLowerCase_empty in Ht. apply Hlow in Ht. auto.
      - rewrite <- Hlo. exact Hoff.
      - apply existsb_exists. exists m. split; [exact Hm|].
        unfold sameEntry. rewrite Ht, Htr, Hy, eqs_refl, eqb_reflx.
        reflexivity. }
    split; [exact E|]. rewrite E. reflexivity.
  - intros j k mj mk Hjk Hj Hk [Ht Hy]. apply Hmatch in Hy.
    pose proof (distinctEntries_nth _ j k mj mk Hd Hjk Hj Hk) as Hk'.
    unfold sameKey in Hk'. rewrite Ht, Hy, eqs_refl in Hk'.
    discriminate.
Qed.

End Resubmission.

(** C3, at the input where the script departs from it.  The year field
    "abc" converts to NaN, which passes the year check of [addMovie] and
    is equal to nothing under [===], itself included.  So on the start
    page [addMovie("Dune", "abc")], run twice, is accepted twice: the
    second run finds no duplicate, shows the "Added" hint and pushes a
    second record with the title and the year of the first, where the claim
    calls for the duplicate refusal and an unchanged catalog.  The catalog
    grows by two and holds two records with the same lowercased title and
    the same year. *)
Theorem same_entry_stored_twice :
  let host := Demo.halving in
  let st0 := session [] in
  let st1 := exec (addMovie (JS.lit "Dune") (JS.lit "abc")) st0 in
  let st2 := exec (addMovie (JS.lit "Dune") (JS.lit "abc")) st1 in
  parseYear (JS.lit "abc") = Num JS.NaN
  /\ sanitizeTitle (JS.lit "Dune") = JS.lit "Dune"
  /\ movies st1
     = movies st0 ++ [mkMovie (JS.lit "29") (JS.lit "Dune") (Num JS.NaN) false]
  /\ movies st2
     = movies st1 ++ [mkMovie (JS.lit "14i") (JS.lit "Dune") (Num JS.NaN) false]
  /\ formHint st2 = addedHint (JS.lit "Dune")
  /\ formHint st2 <> duplicateHint (JS.lit "Dune")
  /\ List.length (movies st2) = 2 + List.length (movies st0)
  /\ (exists mj mk,
        nth_error (movies st2) 3 = Some mj
        /\ nth_error (movies st2) 4 = Some mk
        /\ toLowerCase (title mj) = toLowerCase (title mk)
        /\ year mj = year mk).
Proof.
  cbv zeta.
  split; [vm_compute; reflexivity|].
  split; [vm_compute; reflexivity|].
  split; [vm_compute; reflexivity|].
  split; [vm_compute; reflexivity|].
  split; [vm_compute; reflexivity|].
  split; [vm_compute; discriminate|].
  split; [vm_compute; reflexivity|].
  exists (mkMovie (JS.lit "29") (JS.lit "Dune") (Num JS.NaN) false),
         (mkMovie (JS.lit "14i") (JS.lit "Dune") (Num JS.NaN) false).
  split; [vm_compute; reflexivity|].
  split; [vm_compute; reflexivity|].
  split; reflexivity.
Qed.

(** ** The year check of [addMovie] *)

Section YearCheck.

Context {host : Host}.

(** A year that is truthy and outside the bounds is refused, once the
    title is there. *)
Lemma year_outside_refused (rawTitle rawYear : JS.str) (st : Page) :
  sanitizeTitle rawTitle <> [] ->
  rawYear <> [] ->
  JS.truthyNumber (JS.Number rawYear) = true ->
  JS.lt (JS.Number rawYear) (JS.ofZ 1888) = true
  \/ JS.gt (JS.Number rawYear) (JS.ofZ 2100) = true ->
  exec (addMovie rawTitle rawYear) st = set_formHint yearOutOfRangeHint st.
Proof.
  intros Ht Hne Htr Hout. apply addMovie_year_off; [exact Ht|].
  unfold parseYear. destruct rawYear as [|c r]; [congruence|].
  cbn [JS.truthyString]. unfold yearLooksOff. cbn [truthyYear toNumber].
  rewrite Htr. apply orb_true_iff in Hout. rewrite Hout. reflexivity.
Qed.

(** Years 1887 and 2101 never change the catalog, whatever the title. *)
Lemma year_1887_2101_no_change (rawTitle : JS.str) (st : Page) :
  movies (exec (addMovie rawTitle (JS.lit "1887")) st) = movies st
  /\ movies (exec (addMovie rawTitle (JS.lit "2101")) st) = movies st.
Proof.
  split; rewrite addMovie_movies; cbv zeta;
    match goal with
    | |- context [yearLooksOff ?y] =>
        replace (yearLooksOff y) with true by (vm_compute; reflexivity)
    end;
    rewrite orb_true_r; reflexivity.
Qed.

(** Years 1888 and 2100 pass the year check: with a title and no stored
    duplicate the record is pushed. *)
Lemma year_1888_2100_accepted (rawTitle rawYear : JS.str) (st : Page) :
  rawYear = (JS.lit "1888") \/ rawYear = (JS.lit "2100") ->
  sanitizeTitle rawTitle <> [] ->
  existsb (sameEntry (sanitizeTitle rawTitle) (parseYear rawYear)) (movies st)
  = false ->
  movies (exec (addMovie rawTitle rawYear) st)
  = (movies st
     ++ [mkMovie (idOfDraw (randomCalls st)) (sanitizeTitle rawTitle)
                 (parseYear rawYear) false]).
Proof.
  intros Hy Ht He. rewrite addMovie_movies. cbv zeta. rewrite He.
  replace (yearLooksOff (parseYear rawYear)) with false
    by (destruct Hy as [-> | ->]; vm_compute; reflexivity).
  destruct (sanitizeTitle rawTitle); [congruence|reflexivity].
Qed.

End YearCheck.

(** C1, at the input where the script departs from it.  The year field "0"
    converts to the number 0, which lies below 1888; yet on the start page
    [addMovie("Dune", "0")] pushes a record with year 0 and shows the
    "Added" hint, where the claim calls for the year-out-of-range refusal
    and an unchanged catalog.  The test [yr && ...] skips the range
    comparison for every falsy [yr], not for [null] alone. *)
Theorem year_zero_is_stored :
  let st := @session Demo.halving [] in
  let st' := exec (@addMovie Demo.halving (JS.lit "Dune") (JS.lit "0")) st in
  parseYear (JS.lit "0") = Num (S754_zero false)
  /\ JS.lt (S754_zero false) (JS.ofZ 1888) = true
  /\ movies st'
     = (movies st ++
         [mkMovie (JS.lit "29") (JS.lit "Dune") (Num (S754_zero false)) false])
  /\ formHint st' = addedHint (JS.lit "Dune")
  /\ formHint st' <> yearOutOfRangeHint.
Proof.
  cbv zeta.
  split; [vm_compute; reflexivity|].
  split; [vm_compute; reflexivity|].
  split; [vm_compute; reflexivity|].
  split; [vm_compute; reflexivity|].
  vm_compute. discriminate.
Qed.

(** ** Identifiers *)

Section Identifiers.

Context {host : Host}.

Lemma allDistinct_NoDup (l : list JS.str) : allDistinct l = true -> NoDup l.
Proof.
  induction l as [|x rest IH]; [constructor|].
  cbn [allDistinct]. intros H. apply andb_true_iff in H.
  destruct H as [Hx Hrest]. constructor; [|auto].
  intros Hin. apply negb_true_iff in Hx.
  assert (existsb (JS.eqs x) rest = true)
    by (apply existsb_exists; exists x; split; [exact Hin|apply eqs_refl]).
  congruence.
Qed.

Lemma NoDup_snoc (A : Type) (l : list A) (x : A) :
  NoDup l -> ~ In x l -> NoDup (l ++ [x]).
Proof.
  intros Hl Hx. apply NoDup_app; [exact Hl|repeat constructor; auto|].
  intros a Ha [<-|[]]. auto.
Qed.

Lemma drawnFrom_filter (p : Movie -> bool) (ms : list Movie) (ks : list nat) :
  drawnFrom ks ms -> NoDup ks ->
  exists ks', drawnFrom ks' (filter p ms) /\ NoDup ks' /\ incl ks' ks.
Proof.
  unfold drawnFrom. revert ks.
  induction ms as [|m rest IH]; intros ks Hd Hnd.
  - exists []. cbn. repeat split; [constructor|apply incl_nil_l].
  - destruct ks as [|k ks0]; [discriminate|].
    cbn [map] in Hd. injection Hd as Hk Hrest.
    inversion Hnd as [|? ? Hnotin Hnd0]; subst.
    destruct (IH ks0 Hrest Hnd0) as (ks' & Hd' & Hnd' & Hincl).
    cbn [filter]. destruct (p m).
    + exists (k :: ks'). cbn [map]. repeat split.
      * rewrite Hk, Hd'. reflexivity.
      * constructor; [|exact Hnd']. intros Hin. apply Hnotin, Hincl, Hin.
      * intros x [<-|Hx]; [left; reflexivity|right; apply Hincl, Hx].
    + exists ks'. repeat split; auto using incl_tl.
Qed.

Lemma newRecords_unchanged (ev : Event) (st st' : Page) :
  movies st' = movies st -> newRecords ev st st' = [].
Proof.
  intros H. destruct ev; cbn [newRecords]; try reflexivity.
  rewrite H. apply skipn_all.
Qed.

Lemma snoc_not_same (A : Type) (l : list A) (x : A) : l ++ [x] <> l.
Proof.
  intros E. apply (f_equal (@List.length A)) in E.
  rewrite length_app in E. cbn in E. lia.
Qed.

(** An event that leaves the catalog as it was has not reached
    [cryptoRandomId]. *)
Lemma idDrawsOf_unchanged (ev : Event) (st : Page) :
  movies (exec (listener ev) st) = movies st -> idDrawsOf ev st = [].
Proof.
  destruct ev as [t y|i|i|v|v|]; cbn [idDrawsOf listener]; try reflexivity.
  rewrite addMovie_movies. cbv zeta. unfold accepts.
  destruct (JS.truthyString (sanitizeTitle t)); cbn [negb orb andb];
    [|reflexivity].
  destruct (yearLooksOff (parseYear y)); cbn [negb orb andb]; [reflexivity|].
  destruct (existsb _ (movies st)); cbn [negb]; [reflexivity|].
  intros E. destruct (snoc_not_same _ _ _ E).
Qed.

Lemma ledger_step (ev : Event) (ks : list nat) (hist : list Movie) (st : Page) :
  ledger ks hist st ->
  ledger (ks ++ idDrawsOf ev st)
         (hist ++ newRecords ev st (exec (listener ev) st))
         (exec (listener ev) st).
Proof.
  intros (Hh & Hnd & Hlt & js & Hc & Hndj & Hincl). unfold ledger.
  assert (Hfresh : ~ In (randomCalls st) ks).
  { intros Hin. rewrite Forall_forall in Hlt. specialize (Hlt _ Hin). lia. }
  destruct (listener_catalog ev st)
    as [[Hm Hr]|[(t & y & -> & Ht & Hy & He & Hm & Hr)
               |[(i & -> & Hm & Hr)|(i & -> & Hm & Hr)]]].
  - rewrite (newRecords_unchanged _ _ _ Hm), !app_nil_r.
    rewrite (idDrawsOf_unchanged _ _ Hm), app_nil_r. repeat split; auto.
    + eapply Forall_impl; [|exact Hlt]. cbn. intros k Hk. lia.
    + exists js. rewrite Hm. auto.
  - assert (Hd : idDrawsOf (Submit t y) st = [randomCalls st]).
    { cbn [idDrawsOf]. unfold accepts. rewrite Hy, He.
      destruct (sanitizeTitle t); [congruence|reflexivity]. }
    rewrite Hd. cbn [newRecords].
    rewrite Hm, skipn_app, skipn_all, Nat.sub_diag. cbn [skipn app].
    unfold drawnFrom in *. rewrite !map_app, Hh, Hr. cbn [map id].
    repeat split.
    + apply NoDup_snoc; assumption.
    + apply Forall_app. split.
      * eapply Forall_impl; [|exact Hlt]. cbn. intros k Hk. lia.
      * repeat constructor.
    + exists (js ++ [randomCalls st]). rewrite !map_app, Hc. cbn [map id].
      repeat split.
      * apply NoDup_snoc; [exact Hndj|]. intros Hin.
        apply Hfresh, Hincl, Hin.
      * apply incl_app; [apply incl_appl, Hincl|apply incl_appr, incl_refl].
  - cbn [newRecords idDrawsOf]. rewrite !app_nil_r.
    unfold drawnFrom in *. rewrite Hm, Hr.
    destruct (flipFirst_fields i (movies st)) as (-> & _ & _).
    repeat split; auto. exists js. auto.
  - cbn [newRecords idDrawsOf]. rewrite !app_nil_r.
    destruct (drawnFrom_filter (fun m => negb (JS.eqs (id m) i))
                _ _ Hc Hndj) as (js' & Hc' & Hndj' & Hincl').
    rewrite Hm, Hr. repeat split; auto.
    exists js'. repeat split; auto.
    intros x Hx. apply Hincl, Hincl', Hx.
Qed.

Lemma ledger_run (evs : list Event) (ks : list nat) (hist : list Movie)
    (st : Page) :
  ledger ks hist st ->
  ledger (ks ++ idDrawsBy evs st) (hist ++ createdBy evs st) (run evs st).
Proof.
  revert ks hist st. induction evs as [|ev rest IH]; intros ks hist st H.
  - cbn [createdBy idDrawsBy run]. rewrite !app_nil_r. exact H.
  - cbn [createdBy idDrawsBy run]. rewrite !app_assoc.
    apply IH, ledger_step, H.
Qed.

Lemma ledger_session (evs : list Event) :
  ledger (idDraws evs) (created evs) (session evs).
Proof.
  unfold created, idDraws, session. apply ledger_run. rewrite main_exec.
  unfold ledger. cbn [movies randomCalls].
  split; [reflexivity|]. split; [repeat constructor; cbn; intuition lia|].
  split; [repeat constructor|].
  exists [0; 1; 2]. split; [reflexivity|].
  split; [repeat constructor; cbn; intuition lia|apply incl_refl].
Qed.

(** Draws whose ids differ are told apart by their ids. *)
Lemma NoDup_map_injective (A B : Type) (f : A -> B) (l : list A) (a b : A) :
  NoDup (map f l) -> In a l -> In b l -> f a = f b -> a = b.
Proof.
  induction l as [|x rest IH]; [intros _ []|].
  cbn [map]. intros Hnd Ha Hb E. inversion Hnd as [|? ? Hx Hrest]; subst.
  destruct Ha as [<-|Ha], Hb as [<-|Hb].
  - reflexivity.
  - exfalso. apply Hx. rewrite E. apply in_map, Hb.
  - exfalso. apply Hx. rewrite <- E. apply in_map, Ha.
  - auto.
Qed.

End Identifiers.

(** C4, as amended.  The ids of the records created in a session, removed
    records included, are the ids [cryptoRandomId] cut from its draws of
    [Math.random]: three at start-up, one per accepted add, none of them
    used twice.  If these ids are pairwise distinct, then no two records
    created in the session share an id; every id in the catalog is the id
    of a created record, and no two records of the catalog share one.  The
    draws [pickRandom] makes play no part. *)
Theorem ids_unique_when_draws_differ (host : Host) (evs : list Event) :
  allDistinct (map idOfDraw (idDraws evs)) = true ->
  map id (created evs) = map idOfDraw (idDraws evs)
  /\ NoDup (idDraws evs)
  /\ NoDup (map id (created evs))
  /\ incl (map id (movies (session evs))) (map id (created evs))
  /\ NoDup (map id (movies (session evs))).
Proof.
  intros H. apply allDistinct_NoDup in H.
  destruct (ledger_session evs)
    as (Hh & Hnd & Hlt & js & Hc & Hndj & Hincl).
  split; [exact Hh|]. split; [exact Hnd|]. split; [|split].
  - rewrite Hh. exact H.
  - rewrite Hh, Hc. apply incl_map, Hincl.
  - rewrite Hc. apply NoDup_map_NoDup_ForallPairs; [|exact Hndj].
    intros a b Ha Hb E.
    apply (NoDup_map_injective _ _ idOfDraw (idDraws evs)); auto.
Qed.

Lemma ids_unique_when_draws_differ_witness :
  let host := Demo.echoing in
  let evs :=
      [ClickRandom; Submit (JS.lit "dune") []; ClickRemove (JS.lit "14i");
              Submit (JS.lit "dune") []] in
  Math_random 3 = Math_random 0
  /\ idDraws evs = [0; 1; 2; 4; 5]
  /\ allDistinct (map idOfDraw (idDraws evs)) = true
  /\ NoDup (map id (created evs)).
Proof.
  cbv zeta.
  assert (H : allDistinct
                (map (@idOfDraw Demo.echoing)
                   (@idDraws Demo.echoing
                      [ClickRandom; Submit (JS.lit "dune") [];
                       ClickRemove (JS.lit "14i");
                       Submit (JS.lit "dune") []])) = true)
    by (vm_compute; reflexivity).
  split; [vm_compute; reflexivity|].
  split; [vm_compute; reflexivity|].
  split; [exact H|].
  exact (proj1 (proj2 (proj2
           (ids_unique_when_draws_differ Demo.echoing _ H)))).
Defined.

(** C4, as stated, fails: three different draws of [0, 1) whose base-36
    expansions agree on the eight characters [cryptoRandomId] keeps give
    the three seed records one and the same id. *)
Lemma seed_ids_collide :
  @Math_random Demo.crowded 0 <> @Math_random Demo.crowded 1
  /\ @Math_random Demo.crowded 1 <> @Math_random Demo.crowded 2
  /\ @Math_random Demo.crowded 0 <> @Math_random Demo.crowded 2
  /\ map id (@created Demo.crowded [])
     = [JS.lit "i0000000"; JS.lit "i0000000"; JS.lit "i0000000"]
  /\ ~ NoDup (map id (@created Demo.crowded [])).
Proof.
  split; [vm_compute; discriminate|].
  split; [vm_compute; discriminate|].
  split; [vm_compute; discriminate|].
  split; [vm_compute; reflexivity|].
  intros H. vm_compute in H.
  inversion H as [|? ? Hnotin _]. apply Hnotin. left. reflexivity.
Qed.

(** * Further properties of the script *)

(** ** ASCII letters and white space *)

Section AsciiLetters.

Ltac decide_tests :=
  repeat match goal with
         | |- context [N.eqb ?a ?b] =>
             first [rewrite (proj2 (N.eqb_neq a b)) by lia
                   |rewrite (proj2 (N.eqb_eq a b)) by lia]
         | |- context [N.leb ?a ?b] =>
             first [rewrite (proj2 (N.leb_gt a b)) by lia
                   |rewrite (proj2 (N.leb_le a b)) by lia]
         | |- context [N.ltb ?a ?b] =>
             first [rewrite (proj2 (N.ltb_lt a b)) by lia
                   |rewrite (proj2 (N.ltb_ge a b)) by lia]
         end.

Lemma letter_not_white (c : N) :
  (33 <= c <= 159)%N -> JS.isWhiteSpace c = false /\ JS.isSpace c = false.
Proof.
  intros H. unfold JS.isWhiteSpace, JS.isSpace. decide_tests. auto.
Qed.

Lemma upperLetter_cases (c : N) :
  Ascii7.upperLetter c = c
  \/ ((97 <= c <= 122)%N /\ Ascii7.upperLetter c = (c - 32)%N).
Proof.
  unfold Ascii7.upperLetter.
  destruct (N.leb_spec 97 c); [|auto].
  destruct (N.leb_spec c 122); cbn [andb]; [right; lia|auto].
Qed.

Lemma lowerLetter_cases (c : N) :
  Ascii7.lowerLetter c = c
  \/ ((65 <= c <= 90)%N /\ Ascii7.lowerLetter c = (c + 32)%N).
Proof.
  unfold Ascii7.lowerLetter.
  destruct (N.leb_spec 65 c); [|auto].
  destruct (N.leb_spec c 90); cbn [andb]; [right; lia|auto].
Qed.

Lemma upperLetter_space (c : N) :
  JS.isSpace (Ascii7.upperLetter c) = JS.isSpace c.
Proof.
  destruct (upperLetter_cases c) as [->|[H ->]]; [reflexivity|].
  destruct (letter_not_white c) as [_ ->]; [lia|].
  destruct (letter_not_white (c - 32)) as [_ ->]; [lia|reflexivity].
Qed.

Lemma lowerLetter_space (c : N) :
  JS.isSpace (Ascii7.lowerLetter c) = JS.isSpace c.
Proof.
  destruct (lowerLetter_cases c) as [->|[H ->]]; [reflexivity|].
  destruct (letter_not_white c) as [_ ->]; [lia|].
  destruct (letter_not_white (c + 32)) as [_ ->]; [lia|reflexivity].
Qed.

Lemma upperLetter_white (c : N) :
  JS.isWhiteSpace (Ascii7.upperLetter c) = JS.isWhiteSpace c.
Proof.
  destruct (upperLetter_cases c) as [->|[H ->]]; [reflexivity|].
  destruct (letter_not_white c) as [-> _]; [lia|].
  destruct (letter_not_white (c - 32)) as [-> _]; [lia|reflexivity].
Qed.

Lemma lowerLetter_white (c : N) :
  JS.isWhiteSpace (Ascii7.lowerLetter c) = JS.isWhiteSpace c.
Proof.
  destruct (lowerLetter_cases c) as [->|[H ->]]; [reflexivity|].
  destruct (letter_not_white c) as [-> _]; [lia|].
  destruct (letter_not_white (c + 32)) as [-> _]; [lia|reflexivity].
Qed.

Lemma upperLetter_upperLetter (c : N) :
  Ascii7.upperLetter (Ascii7.upperLetter c) = Ascii7.upperLetter c.
Proof.
  destruct (upperLetter_cases c) as [E|[H E]]; rewrite E; [exact E|].
  unfold Ascii7.upperLetter. decide_tests. reflexivity.
Qed.

Lemma lowerLetter_lowerLetter (c : N) :
  Ascii7.lowerLetter (Ascii7.lowerLetter c) = Ascii7.lowerLetter c.
Proof.
  destruct (lowerLetter_cases c) as [E|[H E]]; rewrite E; [exact E|].
  unfold Ascii7.lowerLetter. decide_tests. reflexivity.
Qed.

Lemma upperLetter_lowerLetter (c : N) :
  Ascii7.upperLetter (Ascii7.lowerLetter c) = Ascii7.upperLetter c.
Proof.
  destruct (lowerLetter_cases c) as [E|[H E]]; rewrite E; [reflexivity|].
  unfold Ascii7.upperLetter. decide_tests. cbn [andb]. lia.
Qed.

Lemma lowerLetter_upperLetter (c : N) :
  Ascii7.lowerLetter (Ascii7.upperLetter c) = Ascii7.lowerLetter c.
Proof.
  destruct (upperLetter_cases c) as [E|[H E]]; rewrite E; [reflexivity|].
  unfold Ascii7.lowerLetter. decide_tests. cbn [andb]. lia.
Qed.

Lemma upperLetter_ascii (c : N) :
  (c <? 128)%N = true -> (Ascii7.upperLetter c <? 128)%N = true.
Proof.
  rewrite !N.ltb_lt.
  destruct (upperLetter_cases c) as [->|[H ->]]; lia.
Qed.

Lemma lowerLetter_ascii (c : N) :
  (c <? 128)%N = true -> (Ascii7.lowerLetter c <? 128)%N = true.
Proof.
  rewrite !N.ltb_lt.
  destruct (lowerLetter_cases c) as [->|[H ->]]; lia.
Qed.

Lemma space_is_white (c : N) :
  JS.isSpace c = true -> JS.isWhiteSpace c = true.
Proof. intros H. apply isSpace_eq in H. subst c. reflexivity. Qed.

End AsciiLetters.

(** ** The shape of a normalized title, for ASCII text *)

Section TitleShape.

Context {host : Host}.

Lemma isAscii_cons (c : N) (r : JS.str) :
  Ascii7.isAscii (c :: r) = true
  <-> (c <? 128)%N = true /\ Ascii7.isAscii r = true.
Proof. unfold Ascii7.isAscii. cbn [forallb]. apply andb_true_iff. Qed.

Lemma isAscii_trimStart (s : JS.str) :
  Ascii7.isAscii s = true -> Ascii7.isAscii (JS.trimStart s) = true.
Proof.
  induction s as [|c r IH]; [auto|]. intros H. cbn [JS.trimStart].
  destruct (JS.isWhiteSpace c); [|exact H].
  apply IH. apply isAscii_cons in H. apply H.
Qed.

Lemma isAscii_trimEnd (s : JS.str) :
  Ascii7.isAscii s = true -> Ascii7.isAscii (JS.trimEnd s) = true.
Proof.
  induction s as [|c r IH]; [auto|]. intros H.
  apply isAscii_cons in H. destruct H as [Hc Hr]. specialize (IH Hr).
  cbn [JS.trimEnd]. destruct (JS.trimEnd r) as [|d r'].
  - destruct (JS.isWhiteSpace c); [reflexivity|].
    apply isAscii_cons. auto.
  - apply isAscii_cons. auto.
Qed.

Lemma isAscii_collapse (s : JS.str) :
  Ascii7.isAscii s = true -> Ascii7.isAscii (Spec.collapse s) = true.
Proof.
  induction s as [|c r IH]; [auto|]. intros H.
  apply isAscii_cons in H. destruct H as [Hc Hr]. specialize (IH Hr).
  destruct r as [|c' r']; [apply isAscii_cons; auto|].
  rewrite collapse_cons2.
  destruct (JS.isSpace c && JS.isSpace c'); [exact IH|].
  apply isAscii_cons. auto.
Qed.

Lemma isAscii_words (s : JS.str) :
  Ascii7.isAscii s = true ->
  Forall (fun w => Ascii7.isAscii w = true) (Spec.words s).
Proof.
  induction s as [|c r IH]; [repeat constructor|]. intros H.
  apply isAscii_cons in H. destruct H as [Hc Hr]. specialize (IH Hr).
  cbn [Spec.words]. destruct (N.eqb c 32).
  - constructor; [reflexivity|exact IH].
  - destruct (Spec.words r) as [|w ws]; repeat constructor.
    + apply isAscii_cons. split; [exact Hc|reflexivity].
    + inversion IH; subst. apply isAscii_cons. auto.
    + inversion IH; subst. assumption.
Qed.

Lemma isAscii_titleCase (b : bool) (s : JS.str) :
  Ascii7.isAscii s = true -> Ascii7.isAscii (titleCase b s) = true.
Proof.
  revert b. induction s as [|c r IH]; intros b; [auto|]. intros H.
  apply isAscii_cons in H. destruct H as [Hc Hr].
  cbn [titleCase]. destruct (JS.isSpace c); apply isAscii_cons.
  - auto.
  - split; [|auto].
    destruct b; [apply upperLetter_ascii|apply lowerLetter_ascii]; exact Hc.
Qed.

(** Splitting on spaces, capitalizing the words and joining them again is
    title case taken character by character; [start] tells whether the
    first word is capitalized or only lowercased. *)
Lemma unwords_cons_char (c : N) (w : JS.str) (ws : list JS.str) :
  Spec.unwords ((c :: w) :: ws) = c :: Spec.unwords (w :: ws).
Proof. reflexivity. Qed.

Lemma unwords_titleCase (start : bool) (s : JS.str) :
  match Spec.words s with
  | w :: ws =>
      Spec.unwords
        ((if start then Ascii7.capitalize w else Ascii7.lower w)
         :: map Ascii7.capitalize ws)
  | [] => []
  end = titleCase start s.
Proof.
  revert start. induction s as [|c r IH]; intros start.
  - destruct start; reflexivity.
  - destruct (words_first r) as (w & ws & E).
    cbn [Spec.words titleCase]. unfold JS.isSpace.
    destruct (N.eqb_spec c 32) as [->|Hc].
    + specialize (IH true). rewrite E in IH |- *. cbn [map].
      rewrite <- IH. destruct start; reflexivity.
    + specialize (IH false). rewrite E in IH |- *. rewrite <- IH.
      destruct start; reflexivity.
Qed.

(** With case conversions that treat ASCII text as the standard
    prescribes, title-casing ASCII text is title-casing its letters. *)
Lemma capitalize_ascii (w : JS.str) :
  asciiCase ->
  Ascii7.isAscii w = true -> Spec.capitalize w = Ascii7.capitalize w.
Proof.
  intros Hcase. destruct w as [|c r]; [reflexivity|]. intros H.
  apply isAscii_cons in H. destruct H as [Hc Hr].
  cbn [Spec.capitalize Ascii7.capitalize].
  assert (H1 : Ascii7.isAscii [c] = true)
    by (apply isAscii_cons; split; [exact Hc|reflexivity]).
  destruct (Hcase [c] H1) as [-> _]. destruct (Hcase r Hr) as [_ ->].
  reflexivity.
Qed.

Lemma sanitizeTitle_titleCase (raw : JS.str) :
  asciiCase ->
  Ascii7.isAscii raw = true ->
  sanitizeTitle raw = titleCase true (Spec.collapse (JS.trim raw)).
Proof.
  intros Hcase Ha. rewrite sanitizeTitle_normalize. unfold Spec.normalize.
  rewrite <- trim_spec.
  assert (Ht : Ascii7.isAscii (Spec.collapse (JS.trim raw)) = true)
    by (apply isAscii_collapse, isAscii_trimEnd, isAscii_trimStart, Ha).
  pose proof (isAscii_words _ Ht) as Hw.
  pose proof (unwords_titleCase true (Spec.collapse (JS.trim raw))) as H.
  rewrite <- H.
  destruct (Spec.words (Spec.collapse (JS.trim raw))) as [|w ws].
  - reflexivity.
  - cbn [map]. f_equal. inversion Hw as [|? ? Hw1 Hw2]; subst. f_equal.
    + apply (capitalize_ascii _ Hcase Hw1).
    + apply map_ext_in. intros x Hx. apply (capitalize_ascii _ Hcase).
      rewrite Forall_forall in Hw2. apply Hw2, Hx.
Qed.

Lemma sanitizeTitle_ascii (raw : JS.str) :
  asciiCase ->
  Ascii7.isAscii raw = true -> Ascii7.isAscii (sanitizeTitle raw) = true.
Proof.
  intros Hcase Ha. rewrite (sanitizeTitle_titleCase _ Hcase Ha).
  apply isAscii_titleCase, isAscii_collapse, isAscii_trimEnd,
    isAscii_trimStart, Ha.
Qed.

(** When [trimEnd] leaves a non-empty string alone. *)
Lemma trimEnd_fixed_cons (c : N) (r : JS.str) :
  JS.trimEnd (c :: r) = c :: r
  <-> (r = [] /\ JS.isWhiteSpace c = false)
      \/ (r <> [] /\ JS.trimEnd r = r).
Proof.
  cbn [JS.trimEnd]. destruct r as [|d r0].
  - cbn [JS.trimEnd]. destruct (JS.isWhiteSpace c); split.
    + discriminate.
    + intros [[_ H]|[H _]]; congruence.
    + auto.
    + reflexivity.
  - destruct (JS.trimEnd (d :: r0)) as [|d' r'] eqn:E; split.
    + destruct (JS.isWhiteSpace c); discriminate.
    + intros [[H _]|[_ H]]; discriminate.
    + intros [= H1 H2]. right. split; [discriminate|]. congruence.
    + intros [[H _]|[_ H]]; [discriminate|]. rewrite H. reflexivity.
Qed.

Lemma trimStart_fixed (s : JS.str) :
  JS.trimStart s = s
  <-> match s with
      | [] => True
      | c :: _ => JS.isWhiteSpace c = false
      end.
Proof.
  split.
  - intros H. pose proof (trimStart_head s) as Hh. rewrite H in Hh. exact Hh.
  - destruct s as [|c r]; [reflexivity|]. cbn [JS.trimStart]. now intros ->.
Qed.

Lemma trimEnd_idem (s : JS.str) : JS.trimEnd (JS.trimEnd s) = JS.trimEnd s.
Proof.
  induction s as [|c r IH]; [reflexivity|]. cbn [JS.trimEnd].
  destruct (JS.trimEnd r) as [|d r'] eqn:E.
  - destruct (JS.isWhiteSpace c) eqn:Hc; [reflexivity|].
    cbn [JS.trimEnd]. rewrite Hc. reflexivity.
  - change (JS.trimEnd (c :: d :: r')) with
      (match JS.trimEnd (d :: r') with
       | [] => if JS.isWhiteSpace c then [] else [c]
       | a :: b => c :: a :: b
       end).
    rewrite IH. reflexivity.
Qed.

Lemma trimEnd_head (c : N) (r : JS.str) :
  JS.isWhiteSpace c = false ->
  exists r', JS.trimEnd (c :: r) = c :: r'.
Proof.
  intros Hc. cbn [JS.trimEnd]. destruct (JS.trimEnd r).
  - rewrite Hc. eauto.
  - eauto.
Qed.

Lemma trim_tidy_ends (raw : JS.str) :
  JS.trimStart (JS.trim raw) = JS.trim raw
  /\ JS.trimEnd (JS.trim raw) = JS.trim raw.
Proof.
  unfold JS.trim. split; [|apply trimEnd_idem].
  apply trimStart_fixed. pose proof (trimStart_head raw) as Hh.
  destruct (JS.trimStart raw) as [|c r]; [exact I|].
  destruct (trimEnd_head c r Hh) as [r' ->]. exact Hh.
Qed.

Lemma collapse_tidy (t : JS.str) :
  JS.trimStart t = t -> JS.trimEnd t = t -> tidy (Spec.collapse t).
Proof.
  intros Hs He. repeat split; [| |apply collapse_no_double].
  - apply trimStart_fixed. apply trimStart_fixed in Hs.
    destruct t as [|c r]; [exact I|].
    destruct r as [|c' r']; [exact Hs|]. rewrite collapse_cons2.
    destruct (JS.isSpace c) eqn:Hc.
    + apply space_is_white in Hc. congruence.
    + cbn [andb]. exact Hs.
  - clear Hs. induction t as [|c r IH]; [reflexivity|].
    apply trimEnd_fixed_cons in He. destruct He as [[-> Hc]|[Hne Hr]].
    + cbn [Spec.collapse JS.trimEnd]. rewrite Hc. reflexivity.
    + specialize (IH Hr). destruct r as [|c' r']; [congruence|].
      rewrite collapse_cons2.
      destruct (JS.isSpace c && JS.isSpace c'); [exact IH|].
      apply trimEnd_fixed_cons. right. split; [|exact IH].
      intros E. apply collapse_empty in E. discriminate.
Qed.

Lemma titleCase_empty (b : bool) (t : JS.str) : titleCase b t = [] -> t = [].
Proof.
  destruct t as [|c r]; [reflexivity|]. cbn [titleCase].
  destruct (JS.isSpace c); discriminate.
Qed.

Lemma titleCase_head (b : bool) (c : N) (r : JS.str) :
  exists c' b',
    titleCase b (c :: r) = c' :: titleCase b' r
    /\ JS.isSpace c' = JS.isSpace c
    /\ JS.isWhiteSpace c' = JS.isWhiteSpace c.
Proof.
  cbn [titleCase]. destruct (JS.isSpace c) eqn:Hc.
  - exists c, true. auto.
  - destruct b.
    + exists (Ascii7.upperLetter c), false.
      rewrite upperLetter_space, upperLetter_white. auto.
    + exists (Ascii7.lowerLetter c), false.
      rewrite lowerLetter_space, lowerLetter_white. auto.
Qed.

Lemma titleCase_includes (b : bool) (t : JS.str) :
  JS.includes (titleCase b t) (JS.lit "  ") = JS.includes t (JS.lit "  ").
Proof.
  revert b. induction t as [|c r IH]; intros b; [reflexivity|].
  destruct (titleCase_head b c r) as (c' & b' & -> & Hs & _).
  rewrite !includes_double_cons, IH, Hs. f_equal. f_equal.
  destruct r as [|d r0]; [reflexivity|].
  destruct (titleCase_head b' d r0) as (d' & b'' & -> & Hd & _). exact Hd.
Qed.

Lemma titleCase_tidy (b : bool) (t : JS.str) :
  tidy t -> tidy (titleCase b t).
Proof.
  intros (Hs & He & Hd). repeat split.
  - apply trimStart_fixed. apply trimStart_fixed in Hs.
    destruct t as [|c r]; [exact I|].
    destruct (titleCase_head b c r) as (c' & b' & -> & _ & Hw). congruence.
  - clear Hs Hd. revert b. induction t as [|c r IH]; intros b; [reflexivity|].
    destruct (titleCase_head b c r) as (c' & b' & -> & _ & Hw).
    apply trimEnd_fixed_cons in He. apply trimEnd_fixed_cons.
    destruct He as [[-> Hc]|[Hne Hr]].
    + left. split; [reflexivity|congruence].
    + right. split; [|apply IH, Hr].
      intros E. apply titleCase_empty in E. contradiction.
  - rewrite titleCase_includes. exact Hd.
Qed.

Lemma titleCase_idem (b : bool) (t : JS.str) :
  titleCase b (titleCase b t) = titleCase b t.
Proof.
  revert b. induction t as [|c r IH]; intros b; [reflexivity|].
  cbn [titleCase]. destruct (JS.isSpace c) eqn:Hc.
  - cbn [titleCase]. rewrite Hc, IH. reflexivity.
  - destruct b; cbn [titleCase].
    + rewrite upperLetter_space, Hc, upperLetter_upperLetter, IH. reflexivity.
    + rewrite lowerLetter_space, Hc, lowerLetter_lowerLetter, IH. reflexivity.
Qed.

(** Lowercasing first changes none of the steps. *)
Lemma trimStart_lower (s : JS.str) :
  JS.trimStart (Ascii7.lower s) = Ascii7.lower (JS.trimStart s).
Proof.
  induction s as [|c r IH]; [reflexivity|].
  unfold Ascii7.lower in *. cbn [map JS.trimStart].
  rewrite lowerLetter_white. destruct (JS.isWhiteSpace c);
      [exact IH|reflexivity].
Qed.

Lemma trimEnd_lower (s : JS.str) :
  JS.trimEnd (Ascii7.lower s) = Ascii7.lower (JS.trimEnd s).
Proof.
  induction s as [|c r IH]; [reflexivity|].
  unfold Ascii7.lower in *. cbn [map JS.trimEnd].
  rewrite IH, lowerLetter_white.
  destruct (JS.trimEnd r); [destruct (JS.isWhiteSpace c)|]; reflexivity.
Qed.

Lemma trim_lower (s : JS.str) :
  JS.trim (Ascii7.lower s) = Ascii7.lower (JS.trim s).
Proof. unfold JS.trim. now rewrite trimStart_lower, trimEnd_lower. Qed.

Lemma collapse_lower (s : JS.str) :
  Spec.collapse (Ascii7.lower s) = Ascii7.lower (Spec.collapse s).
Proof.
  induction s as [|c r IH]; [reflexivity|].
  destruct r as [|c' r']; [reflexivity|].
  change (Ascii7.lower (c :: c' :: r'))
    with (Ascii7.lowerLetter c :: Ascii7.lowerLetter c' :: Ascii7.lower r').
  rewrite !collapse_cons2, !lowerLetter_space.
  change (Ascii7.lowerLetter c' :: Ascii7.lower r')
    with (Ascii7.lower (c' :: r')).
  rewrite IH. destruct (JS.isSpace c && JS.isSpace c'); reflexivity.
Qed.

Lemma titleCase_lower (b : bool) (t : JS.str) :
  titleCase b (Ascii7.lower t) = titleCase b t.
Proof.
  revert b. induction t as [|c r IH]; intros b; [reflexivity|].
  change (Ascii7.lower (c :: r)) with (Ascii7.lowerLetter c :: Ascii7.lower r).
  cbn [titleCase]. rewrite lowerLetter_space, !IH.
  destruct (JS.isSpace c) eqn:Hc.
  - apply isSpace_eq in Hc. subst c. reflexivity.
  - destruct b;
      [rewrite upperLetter_lowerLetter|rewrite lowerLetter_lowerLetter];
      reflexivity.
Qed.

Lemma sanitizeTitle_tidy (raw : JS.str) :
  asciiCase -> Ascii7.isAscii raw = true -> tidy (sanitizeTitle raw).
Proof.
  intros Hcase Ha. rewrite (sanitizeTitle_titleCase _ Hcase Ha).
  apply titleCase_tidy.
  destruct (trim_tidy_ends raw). apply collapse_tidy; assumption.
Qed.

(** On a tidy string only the letter case is left to set. *)
Lemma sanitizeTitle_on_tidy (t : JS.str) :
  asciiCase ->
  Ascii7.isAscii t = true -> tidy t -> sanitizeTitle t = titleCase true t.
Proof.
  intros Hcase Ha (Hs & He & Hd).
  rewrite (sanitizeTitle_titleCase _ Hcase Ha).
  unfold JS.trim. rewrite Hs, He, (collapse_fixed _ Hd). reflexivity.
Qed.

Lemma sanitizeTitle_twice (raw : JS.str) :
  asciiCase ->
  Ascii7.isAscii raw = true ->
  sanitizeTitle (sanitizeTitle raw) = sanitizeTitle raw.
Proof.
  intros Hcase Ha.
  rewrite (sanitizeTitle_on_tidy _ Hcase (sanitizeTitle_ascii _ Hcase Ha)
             (sanitizeTitle_tidy _ Hcase Ha)).
  rewrite (sanitizeTitle_titleCase _ Hcase Ha). apply titleCase_idem.
Qed.

Lemma sanitizeTitle_lower (raw : JS.str) :
  asciiCase ->
  Ascii7.isAscii raw = true ->
  sanitizeTitle raw
  = titleCase true (Spec.collapse (JS.trim (Ascii7.lower raw))).
Proof.
  intros Hcase Ha. rewrite (sanitizeTitle_titleCase _ Hcase Ha).
  rewrite trim_lower, collapse_lower, titleCase_lower. reflexivity.
Qed.

End TitleShape.

(** X1. On ASCII input, with case conversions that treat ASCII text as the
    standard prescribes, the title [sanitizeTitle] returns has nothing left
    to trim at either end and no two adjacent spaces. *)
Theorem sanitizeTitle_output_tidy (host : Host) (raw : JS.str) :
  asciiCase -> Ascii7.isAscii raw = true ->
  JS.trim (sanitizeTitle raw) = sanitizeTitle raw
  /\ JS.includes (sanitizeTitle raw) (JS.lit "  ") = false.
Proof.
  intros Hcase Ha.
  destruct (sanitizeTitle_tidy raw Hcase Ha) as (Hs & He & Hd).
  split; [|exact Hd]. unfold JS.trim. rewrite Hs. exact He.
Qed.

Lemma sanitizeTitle_output_tidy_witness :
  let host := Demo.halving in
  asciiCase /\ Ascii7.isAscii (JS.lit "  the   iron GIANT ") = true
  /\ JS.trim (sanitizeTitle (JS.lit "  the   iron GIANT "))
     = sanitizeTitle (JS.lit "  the   iron GIANT ").
Proof.
  cbv zeta.
  assert (Hc : @asciiCase Demo.halving) by (intros s _; split; reflexivity).
  split; [exact Hc|]. split; [reflexivity|].
  exact (proj1 (sanitizeTitle_output_tidy Demo.halving
                  (JS.lit "  the   iron GIANT ") Hc eq_refl)).
Defined.

(** X2. On ASCII input, with case conversions that treat ASCII text as the
    standard prescribes, [sanitizeTitle] is idempotent: normalizing a
    normalized title gives it back. *)
Theorem sanitizeTitle_idempotent (host : Host) (raw : JS.str) :
  asciiCase -> Ascii7.isAscii raw = true ->
  sanitizeTitle (sanitizeTitle raw) = sanitizeTitle raw.
Proof. intros Hcase Ha. apply sanitizeTitle_twice; assumption. Qed.

Lemma sanitizeTitle_idempotent_witness :
  let host := Demo.halving in
  asciiCase /\ Ascii7.isAscii (JS.lit "  the   iron GIANT ") = true
  /\ sanitizeTitle (sanitizeTitle (JS.lit "  the   iron GIANT "))
     = sanitizeTitle (JS.lit "  the   iron GIANT ").
Proof.
  cbv zeta.
  assert (Hc : @asciiCase Demo.halving) by (intros s _; split; reflexivity).
  split; [exact Hc|]. split; [reflexivity|].
  exact (sanitizeTitle_idempotent Demo.halving
           (JS.lit "  the   iron GIANT ") Hc eq_refl).
Defined.

(** X3. ASCII raw titles that differ in letter case only normalize to the
    same title, so [addMovie] treats them alike on every page (with case
    conversions that treat ASCII text as the standard prescribes). *)
Theorem sanitizeTitle_ignores_case (host : Host) (raw1 raw2 : JS.str) :
  asciiCase ->
  Ascii7.isAscii raw1 = true -> Ascii7.isAscii raw2 = true ->
  toLowerCase raw1 = toLowerCase raw2 ->
  sanitizeTitle raw1 = sanitizeTitle raw2
  /\ forall rawYear st,
       exec (addMovie raw1 rawYear) st = exec (addMovie raw2 rawYear) st.
Proof.
  intros Hcase H1 H2 H.
  destruct (Hcase raw1 H1) as [_ E1]. destruct (Hcase raw2 H2) as [_ E2].
  rewrite E1, E2 in H.
  assert (E : sanitizeTitle raw1 = sanitizeTitle raw2)
    by (rewrite (sanitizeTitle_lower raw1 Hcase H1),
          (sanitizeTitle_lower raw2 Hcase H2), H; reflexivity).
  split; [exact E|]. intros rawYear st. unfold addMovie. rewrite E.
  reflexivity.
Qed.

Lemma sanitizeTitle_ignores_case_witness :
  let host := Demo.halving in
  asciiCase
  /\ toLowerCase (JS.lit "tHE iron GIANT")
     = toLowerCase (JS.lit "The Iron Giant")
  /\ sanitizeTitle (JS.lit "tHE iron GIANT")
     = sanitizeTitle (JS.lit "The Iron Giant").
Proof.
  cbv zeta.
  assert (Hc : @asciiCase Demo.halving) by (intros s _; split; reflexivity).
  assert (H : @toLowerCase Demo.halving (JS.lit "tHE iron GIANT")
              = @toLowerCase Demo.halving (JS.lit "The Iron Giant"))
    by reflexivity.
  split; [exact Hc|]. split; [exact H|].
  exact (proj1 (sanitizeTitle_ignores_case Demo.halving
                  (JS.lit "tHE iron GIANT") (JS.lit "The Iron Giant") Hc
                  eq_refl eq_refl H)).
Defined.
(** ** The outcomes of [addMovie] *)

Section AddOutcomes.

Context {host : Host}.

(** The page [addMovie] leaves, case by case. *)
Lemma addMovie_outcome (rawTitle rawYear : JS.str) (st : Page) :
  let clean := sanitizeTitle rawTitle in
  let yr := parseYear rawYear in
  let st' := exec (addMovie rawTitle rawYear) st in
  (clean = [] /\ st' = set_formHint emptyTitleHint st)
  \/ (clean <> [] /\ yearLooksOff yr = true
      /\ st' = set_formHint yearOutOfRangeHint st)
  \/ (clean <> [] /\ yearLooksOff yr = false
      /\ existsb (sameEntry clean yr) (movies st) = true
      /\ st' = set_formHint (duplicateHint clean) st)
  \/ (clean <> [] /\ yearLooksOff yr = false
      /\ existsb (sameEntry clean yr) (movies st) = false
      /\ formHint st' = addedHint clean
      /\ movies st'
         = (movies st
            ++ [mkMovie (idOfDraw (randomCalls st)) clean yr false])
      /\ randomCalls st' = S (randomCalls st)).
Proof.
  cbv zeta.
  destruct (JS.truthyString (sanitizeTitle rawTitle)) eqn:Ht.
  - assert (Hne : sanitizeTitle rawTitle <> [])
      by (intros E; rewrite E in Ht; discriminate).
    destruct (yearLooksOff (parseYear rawYear)) eqn:Hy.
    + right. left. auto using addMovie_year_off.
    + destruct (existsb (sameEntry (sanitizeTitle rawTitle) (parseYear rawYear))
                  (movies st)) eqn:He.
      * right. right. left. auto using addMovie_duplicate.
      * right. right. right.
        rewrite addMovie_accepted by assumption.
        rewrite movies_refresh, randomCalls_refresh, refresh_exec.
        cbn. auto 10.
  - apply truthyString_false in Ht. left. auto using addMovie_empty_title.
Qed.

Lemma le_not_lt (x c : JS.number) : JS.le c x = true -> JS.lt x c = false.
Proof.
  unfold JS.lt, JS.le, SFltb, SFleb. rewrite (SFcompare_swap c x).
  destruct (SFcompare c x) as [[| |]|]; cbn; congruence.
Qed.

End AddOutcomes.

(** X4. [addMovie] shows the "Please enter a title." warning exactly when
    the raw title is empty or white space only, whatever the year field
    holds; the page is then unchanged but for the hint.  (That every other
    title gets past the warning rests on the case conversion turning no
    character into the empty string.) *)
Theorem blank_title_refused (host : Host) (rawTitle rawYear : JS.str)
    (st : Page) :
  upperKeepsText ->
  (formHint (exec (addMovie rawTitle rawYear) st) = emptyTitleHint
   <-> Spec.blank rawTitle = true)
  /\ (Spec.blank rawTitle = true ->
      exec (addMovie rawTitle rawYear) st = set_formHint emptyTitleHint st).
Proof.
  intros Hup.
  assert (Hb : Spec.blank rawTitle = true ->
               exec (addMovie rawTitle rawYear) st
               = set_formHint emptyTitleHint st).
  { intros H. apply addMovie_empty_title, sanitizeTitle_blank, H. }
  split; [|exact Hb]. split.
  - intros H.
    destruct (addMovie_outcome rawTitle rawYear st)
      as [[E _]|[(_ & _ & E)|[(_ & _ & _ & E)|(_ & _ & _ & E & _)]]].
    + apply (sanitizeTitle_empty _ Hup E).
    + rewrite E in H. discriminate.
    + rewrite E in H. discriminate.
    + rewrite E in H. discriminate.
  - intros H. rewrite (Hb H). reflexivity.
Qed.

Lemma blank_title_refused_witness :
  let host := Demo.halving in
  upperKeepsText
  /\ Spec.blank (160%N :: JS.lit "  ") = true
  /\ exec (addMovie (160%N :: JS.lit "  ") (JS.lit "1999")) (session [])
     = set_formHint emptyTitleHint (session []).
Proof.
  cbv zeta.
  assert (Hup : @upperKeepsText Demo.halving)
    by (intros [|c r] E; [reflexivity|discriminate]).
  assert (H : Spec.blank (160%N :: JS.lit "  ") = true) by reflexivity.
  split; [exact Hup|]. split; [exact H|].
  exact (proj2 (blank_title_refused Demo.halving (160%N :: JS.lit "  ")
                  (JS.lit "1999") _ Hup) H).
Defined.

(** X5. The hint [addMovie] shows agrees with what it did.  Either the hint
    has the "ok" class, exactly one record was pushed at the end of the
    catalog (unwatched, with the normalized title and the parsed year) and
    one random number was drawn; or the hint has the "warn" class and
    nothing but the hint changed: no record, no draw, no re-render. *)
Theorem addMovie_feedback (host : Host) (rawTitle rawYear : JS.str)
    (st : Page) :
  let st' := exec (addMovie rawTitle rawYear) st in
  (className (formHint st') = (JS.lit "muted badge ok")
   /\ (exists m,
         movies st' = (movies st ++ [m])
         /\ watched m = false
         /\ title m = sanitizeTitle rawTitle
         /\ year m = parseYear rawYear)
   /\ randomCalls st' = S (randomCalls st))
  \/ (className (formHint st') = (JS.lit "muted badge warn")
      /\ exists h, st' = set_formHint h st).
Proof.
  cbv zeta.
  destruct (addMovie_outcome rawTitle rawYear st)
    as [[_ E]|[(_ & _ & E)|[(_ & _ & _ & E)|(_ & _ & _ & Eh & Em & Er)]]].
  - right. rewrite E. split; [reflexivity|eauto].
  - right. rewrite E. split; [reflexivity|eauto].
  - right. rewrite E. split; [reflexivity|eauto].
  - left. rewrite Eh, Em, Er. split; [reflexivity|]. split; [|reflexivity].
    eexists. split; [reflexivity|]. cbn. auto.
Qed.

(** X6. With a title that normalizes to a non-empty string, [addMovie]
    shows the "Year looks off" warning exactly when the year field is
    non-empty and its number is neither zero nor NaN and does not lie
    between 1888 and 2100; zero and NaN pass the check. *)
Theorem year_refusal_exact (host : Host) (rawTitle rawYear : JS.str)
    (st : Page) :
  sanitizeTitle rawTitle <> [] ->
  (formHint (exec (addMovie rawTitle rawYear) st) = yearOutOfRangeHint
   <-> rawYear <> []
       /\ JS.truthyNumber (JS.Number rawYear) = true
       /\ ~ withinBounds (JS.Number rawYear)).
Proof.
  intros Hne.
  assert (Hcheck : yearLooksOff (parseYear rawYear) = true
                  <-> rawYear <> []
                      /\ JS.truthyNumber (JS.Number rawYear) = true
                      /\ ~ withinBounds (JS.Number rawYear)).
  { unfold parseYear. destruct rawYear as [|c r].
    - cbn. split; [discriminate|]. intros [H _]. congruence.
    - cbn [JS.truthyString]. set (x := JS.Number (c :: r)).
      split.
      + intros H. split; [discriminate|].
        destruct (JS.truthyNumber x) eqn:Ht.
        * split; [reflexivity|]. intros [Hlo Hhi].
          unfold yearLooksOff in H. cbn [truthyYear toNumber] in H.
          rewrite Ht in H. cbn [andb] in H.
          apply le_not_lt in Hlo. apply le_not_lt in Hhi.
          unfold JS.gt, JS.lt in *. rewrite Hlo, Hhi in H. discriminate.
        * unfold yearLooksOff in H. cbn [truthyYear] in H.
          rewrite Ht in H. discriminate.
      + intros (_ & Ht & Hout).
        destruct (yearLooksOff (Num x)) eqn:Hy; [reflexivity|].
        exfalso. apply Hout. apply accepted_within_bounds; assumption. }
  rewrite <- Hcheck.
  destruct (addMovie_outcome rawTitle rawYear st)
    as [[E _]|[(_ & Hy & E)|[(_ & Hy & _ & E)|(_ & Hy & _ & E & _)]]].
  - contradiction.
  - rewrite E, Hy. split; reflexivity.
  - rewrite E, Hy. split; discriminate.
  - rewrite E, Hy. split; discriminate.
Qed.

Lemma year_refusal_exact_witness :
  let host := Demo.halving in
  sanitizeTitle (JS.lit "Dune") <> []
  /\ (JS.lit "1887" <> []
      /\ JS.truthyNumber (JS.Number (JS.lit "1887")) = true
      /\ ~ withinBounds (JS.Number (JS.lit "1887")))
  /\ formHint (exec (addMovie (JS.lit "Dune") (JS.lit "1887")) (session []))
     = yearOutOfRangeHint.
Proof.
  cbv zeta.
  assert (Hb : @sanitizeTitle Demo.halving (JS.lit "Dune") <> [])
    by (vm_compute; discriminate).
  assert (Hy : JS.lit "1887" <> []
               /\ JS.truthyNumber (JS.Number (JS.lit "1887")) = true
               /\ ~ withinBounds (JS.Number (JS.lit "1887"))).
  { split; [discriminate|]. split; [reflexivity|].
    intros [H _]. vm_compute in H. discriminate. }
  split; [exact Hb|]. split; [exact Hy|].
  exact (proj2 (year_refusal_exact Demo.halving (JS.lit "Dune")
                  (JS.lit "1887") _ Hb) Hy).
Defined.

(** X7. A year field that holds white space only is not taken as absent:
    it converts to the number 0, passes the year check, and the record is
    stored with year 0, an entry different from the same title with no
    year. *)
Theorem blank_year_is_zero (host : Host) (rawTitle rawYear : JS.str)
    (st : Page) :
  rawYear <> [] -> Spec.blank rawYear = true ->
  parseYear rawYear = Num (S754_zero false)
  /\ strictEq (parseYear rawYear) Null = false
  /\ (sanitizeTitle rawTitle <> [] ->
      existsb (sameEntry (sanitizeTitle rawTitle) (Num (S754_zero false)))
        (movies st) = false ->
      movies (exec (addMovie rawTitle rawYear) st)
      = movies st
        ++ [mkMovie (idOfDraw (randomCalls st)) (sanitizeTitle rawTitle)
                    (Num (S754_zero false)) false]).
Proof.
  intros Hne Hb.
  assert (E : parseYear rawYear = Num (S754_zero false)).
  { unfold parseYear, JS.Number. rewrite (trim_blank _ Hb).
    destruct rawYear; [congruence|reflexivity]. }
  split; [exact E|]. split; [rewrite E; reflexivity|].
  intros Hn He. rewrite addMovie_movies. cbv zeta. rewrite E, He.
  destruct (sanitizeTitle rawTitle); [congruence|reflexivity].
Qed.

Lemma blank_year_is_zero_witness :
  let host := Demo.halving in
  [160%N] <> [] /\ Spec.blank [160%N] = true
  /\ parseYear [160%N] = Num (S754_zero false)
  /\ map year (movies (exec (addMovie (JS.lit "Dune") [160%N]) (session [])))
     = [Num (JS.ofZ 1999); Num (JS.ofZ 2017); Num (JS.ofZ 2016);
        Num (S754_zero false)].
Proof.
  cbv zeta.
  assert (H1 : [160%N] <> []) by discriminate.
  assert (H2 : Spec.blank [160%N] = true) by reflexivity.
  split; [exact H1|]. split; [exact H2|].
  pose proof (blank_year_is_zero Demo.halving (JS.lit "Dune") [160%N]
                (@session Demo.halving []) H1 H2) as (E1 & _ & E3).
  split; [exact E1|].
  rewrite E3; [reflexivity| |reflexivity].
  vm_compute. discriminate.
Defined.
(** ** Removing and toggling *)

Section RemoveToggle.

Context {host : Host}.

Lemma getVisibleMovies_visibleOf (st : Page) :
  fst (getVisibleMovies st)
  = visibleOf (currentFilter st) (currentQuery st) (movies st).
Proof. reflexivity. Qed.

Lemma refresh_shown (ms : list Movie) (st : Page) :
  exec (renderList ;; updateStats) (set_movies ms st) = shown ms st.
Proof. rewrite refresh_exec. reflexivity. Qed.

Lemma removeMovie_shown (i : JS.str) (st : Page) :
  exec (removeMovie i) st = shown (without i (movies st)) st.
Proof. rewrite removeMovie_exec. apply refresh_shown. Qed.

Lemma toggleWatched_shown (i : JS.str) (st : Page) :
  exec (toggleWatched i) st
  = match find (fun x => JS.eqs (id x) i) (movies st) with
    | Some _ => shown (flipFirst i (movies st)) st
    | None => st
    end.
Proof.
  rewrite toggleWatched_exec. destruct (find _ (movies st)); [|reflexivity].
  apply refresh_shown.
Qed.

Lemma shown_shown (ms ms' : list Movie) (st : Page) :
  shown ms (shown ms' st) = shown ms st.
Proof. reflexivity. Qed.

Lemma without_without (i j : JS.str) (ms : list Movie) :
  without i (without j ms) = without j (without i ms).
Proof.
  unfold without. induction ms as [|m rest IH]; [reflexivity|].
  cbn [filter]. destruct (negb (JS.eqs (id m) j)) eqn:Hj;
    destruct (negb (JS.eqs (id m) i)) eqn:Hi;
    cbn [filter]; rewrite ?Hj, ?Hi, IH; reflexivity.
Qed.

Lemma without_idem (i : JS.str) (ms : list Movie) :
  without i (without i ms) = without i ms.
Proof.
  unfold without. induction ms as [|m rest IH]; [reflexivity|].
  cbn [filter]. destruct (negb (JS.eqs (id m) i)) eqn:Hi;
    cbn [filter]; rewrite ?Hi, IH; reflexivity.
Qed.

Lemma without_flipFirst (i : JS.str) (ms : list Movie) :
  without i (flipFirst i ms) = without i ms.
Proof.
  unfold without. induction ms as [|m rest IH]; [reflexivity|].
  cbn [flipFirst]. destruct (JS.eqs (id m) i) eqn:Hi.
  - cbn [filter id]. rewrite Hi. reflexivity.
  - cbn [filter]. rewrite Hi, IH. reflexivity.
Qed.

Lemma without_length (i : JS.str) (ms : list Movie) :
  List.length (without i ms)
  + List.length (filter (fun m => JS.eqs (id m) i) ms)
  = List.length ms.
Proof.
  unfold without. induction ms as [|m rest IH]; [reflexivity|].
  cbn [filter]. destruct (JS.eqs (id m) i); cbn [negb List.length]; lia.
Qed.


Lemma subsequence_filter (A : Type) (p : A -> bool) (l : list A) :
  subsequence (filter p l) l.
Proof.
  induction l as [|a rest IH]; [constructor|].
  cbn [filter]. destruct (p a).
  - apply subsequence_keep, IH.
  - apply subsequence_skip, IH.
Qed.

Lemma find_missing (i : JS.str) (ms : list Movie) :
  (forall m, In m ms -> id m <> i) ->
  find (fun x => JS.eqs (id x) i) ms = None.
Proof.
  induction ms as [|m rest IH]; intros H; [reflexivity|].
  cbn [find]. destruct (eqs_spec (id m) i) as [E|_].
  - exfalso. apply (H m); [left; reflexivity|exact E].
  - apply IH. intros x Hx. apply H. right. exact Hx.
Qed.

(** Turning the flag of the first record with id [i] moves the number of
    watched records by one. *)
Lemma flipFirst_watched (i : JS.str) (ms : list Movie) (m : Movie) :
  find (fun x => JS.eqs (id x) i) ms = Some m ->
  Z.of_nat (List.length (filter watched (flipFirst i ms)))
  = (Z.of_nat (List.length (filter watched ms))
     + (if watched m then -1 else 1))%Z.
Proof.
  induction ms as [|a rest IH]; [discriminate|].
  cbn [find flipFirst]. destruct (JS.eqs (id a) i).
  - intros [= <-]. cbn [filter watched].
    destruct (watched a); cbn [negb List.length]; lia.
  - intros H. specialize (IH H). cbn [filter].
    destruct (watched a); cbn [List.length]; lia.
Qed.

End RemoveToggle.

(** X8. [removeMovie(i)] keeps exactly the records whose id is not [i], in
    their old order, and drops every record that carries [i]; the page it
    leaves is the old page with that catalog, rendered and counted.
    Removing the same id again changes nothing, and two removals give the
    same page in either order. *)
Theorem removeMovie_effect (host : Host) (st : Page) (i : JS.str) :
  let st' := exec (removeMovie i) st in
  (forall m, In m (movies st') <-> In m (movies st) /\ id m <> i)
  /\ subsequence (movies st') (movies st)
  /\ List.length (movies st')
     + List.length (filter (fun m => JS.eqs (id m) i) (movies st))
     = List.length (movies st)
  /\ exec (removeMovie i) st' = st'
  /\ forall j,
       exec (removeMovie j) st'
       = exec (removeMovie i) (exec (removeMovie j) st).
Proof.
  cbv zeta. rewrite !removeMovie_shown. cbn [movies shown].
  split; [|split; [|split; [|split]]].
  - intros m. unfold without. rewrite filter_In, negb_true_iff.
    split; intros [H1 H2]; (split; [exact H1|]).
    + apply eqs_neq, H2.
    + apply eqs_neq, H2.
  - apply subsequence_filter.
  - apply without_length.
  - rewrite without_idem. apply shown_shown.
  - intros j. rewrite !removeMovie_shown. cbn [movies shown].
    rewrite (without_without j i), !shown_shown. reflexivity.
Qed.

(** X9. Toggling a record and then removing it leaves the same page as
    removing it at once. *)
Theorem toggle_then_remove (host : Host) (st : Page) (i : JS.str) :
  exec (removeMovie i) (exec (toggleWatched i) st) = exec (removeMovie i) st.
Proof.
  rewrite toggleWatched_shown.
  destruct (find _ (movies st)); [|reflexivity].
  rewrite !removeMovie_shown. cbn [movies shown].
  rewrite without_flipFirst. apply shown_shown.
Qed.

(** X10. When [toggleWatched(i)] finds a record, the stats line it writes
    keeps the total and moves the watched count by one, up if the record
    was unwatched and down if it was watched; the remaining count moves the
    other way. *)
Theorem toggle_moves_count (host : Host) (st : Page) (i : JS.str) (m : Movie) :
  find (fun x => JS.eqs (id x) i) (movies st) = Some m ->
  let before := Spec.stats (movies st) in
  let step := (if watched m then -1 else 1)%Z in
  statsText (exec (toggleWatched i) st)
  = mkStats (total before) (watchedCount before + step)
            (remaining before - step).
Proof.
  intros Hf. cbv zeta. rewrite toggleWatched_shown, Hf.
  cbn [statsText shown]. unfold Spec.stats. cbn [total watchedCount remaining].
  rewrite flipFirst_length, (flipFirst_watched _ _ _ Hf).
  f_equal. lia.
Qed.

Lemma toggle_moves_count_witness :
  let st := @session Demo.halving [] in
  find (fun x => JS.eqs (id x) (JS.lit "i")) (movies st)
  = Some (mkMovie (JS.lit "i") (JS.lit "The Iron Giant") (Num (JS.ofZ 1999))
      false)
  /\ statsText (exec (@toggleWatched Demo.halving (JS.lit "i")) st)
     = mkStats 3 2 1.
Proof.
  cbv zeta.
  assert (H : find (fun x => JS.eqs (id x) (JS.lit "i"))
                (movies (@session Demo.halving []))
              = Some (mkMovie (JS.lit "i") (JS.lit "The Iron Giant")
                  (Num (JS.ofZ 1999)) false))
    by (vm_compute; reflexivity).
  split; [exact H|].
  rewrite (toggle_moves_count Demo.halving _ _ _ H). vm_compute. reflexivity.
Defined.

(** ** What the page shows *)

Section Display.

Context {host : Host}.

Lemma inSync_shown (st : Page) : inSync st -> shown (movies st) st = st.
Proof.
  destruct st as [ms f q l s h r n]. unfold inSync, shown. cbn.
  intros [-> ->]. reflexivity.
Qed.

Lemma inSync_set_formHint (h : Hint) (st : Page) :
  inSync st -> inSync (set_formHint h st).
Proof. intros H. exact H. Qed.

Lemma inSync_refresh (st : Page) :
  inSync (exec (renderList ;; updateStats) st).
Proof. rewrite refresh_exec. split; reflexivity. Qed.

(** The three ways [pickRandom] can end. *)
Lemma pickRandom_cases (st : Page) :
  let visible := fst (getVisibleMovies st) in
  (visible = [] /\ exec pickRandom st = set_randomOut NothingToPick st)
  \/ (visible <> []
      /\ exists choice,
           choose (Math_random (randomCalls st)) visible = Some choice
           /\ exec pickRandom st
              = set_randomOut
                  (Pick (title choice)
                     (if truthyYear (year choice)
                      then Some (toNumber (year choice)) else None))
                  (set_randomCalls (S (randomCalls st)) st))
  \/ (visible <> []
      /\ choose (Math_random (randomCalls st)) visible = None
      /\ exec pickRandom st = set_randomCalls (S (randomCalls st)) st).
Proof.
  cbv zeta. unfold pickRandom, exec, bind. rewrite (getVisibleMovies_run st).
  cbv beta iota.
  destruct (fst (getVisibleMovies st)) as [|v vs] eqn:Ev.
  - left. split; reflexivity.
  - right. cbn [List.length Nat.eqb].
    unfold random, bind, gets, modify, ret. cbv beta iota. cbn [fst snd].
    destruct (choose (Math_random (randomCalls st)) (v :: vs)) as [c|] eqn:Ec.
    + left. split; [discriminate|]. exists c. split; reflexivity.
    + right. split; [discriminate|]. split; reflexivity.
Qed.

Lemma choose_In (r : JS.number) (visible : list Movie) (choice : Movie) :
  choose r visible = Some choice -> In choice visible.
Proof.
  unfold choose. destruct (JS.floorZ _) as [k|]; [|discriminate].
  destruct (0 <=? k)%Z; [|discriminate]. apply nth_error_In.
Qed.

Lemma inSync_step (ev : Event) (st : Page) :
  inSync st -> inSync (exec (listener ev) st).
Proof.
  intros H. destruct ev as [t y|i|i|v|v|]; cbn [listener].
  - destruct (JS.truthyString (sanitizeTitle t)) eqn:Ht.
    + assert (Hne : sanitizeTitle t <> [])
        by (intros E; rewrite E in Ht; discriminate).
      destruct (yearLooksOff (parseYear y)) eqn:Hy.
      * rewrite addMovie_year_off by assumption. exact H.
      * destruct (existsb (sameEntry (sanitizeTitle t) (parseYear y))
                    (movies st)) eqn:He.
        -- rewrite addMovie_duplicate by assumption. exact H.
        -- rewrite addMovie_accepted by assumption. apply inSync_refresh.
    + apply truthyString_false in Ht.
      rewrite addMovie_empty_title by assumption. exact H.
  - rewrite toggleWatched_exec. destruct (find _ (movies st)); [|exact H].
    apply inSync_refresh.
  - rewrite removeMovie_exec. apply inSync_refresh.
  - change (exec (modify (set_currentFilter v) ;; renderList ;; updateStats) st)
      with (exec (renderList ;; updateStats) (set_currentFilter v st)).
    apply inSync_refresh.
  - change (exec (modify (set_currentQuery v) ;; renderList ;; updateStats) st)
      with (exec (renderList ;; updateStats) (set_currentQuery v st)).
    apply inSync_refresh.
  - destruct (pickRandom_cases st)
      as [[_ E]|[(_ & c & _ & E)|(_ & _ & E)]]; rewrite E; exact H.
Qed.

Lemma session_inSync (evs : list Event) : inSync (session evs).
Proof.
  apply (session_ind inSync).
  - rewrite main_exec. split; [|reflexivity].
    unfold visibleOf. cbn [listEl currentFilter currentQuery movies].
    change (JS.trim []) with (@nil N). rewrite toLowerCase_empty.
    reflexivity.
  - intros st ev. apply inSync_step.
Qed.

End Display.

(** X11. In every page a session reaches, the rendered list is the
    projection of the current catalog under the current filter and search
    text: no event leaves a stale list on screen.  In particular every
    rendered item is a record of the catalog. *)
Theorem rendered_list_in_sync (host : Host) (evs : list Event) :
  listEl (session evs) = fst (getVisibleMovies (session evs))
  /\ forall m, In m (listEl (session evs)) -> In m (movies (session evs)).
Proof.
  destruct (session_inSync evs) as [Hl _].
  rewrite getVisibleMovies_visibleOf. split; [exact Hl|].
  intros m. rewrite Hl. unfold visibleOf. rewrite filter_In. tauto.
Qed.

(** X12. In every page a session reaches, toggling or removing an id that
    no record carries leaves the whole page as it is: catalog, rendered
    list, stats line, hint and all. *)
Theorem missing_id_changes_nothing (host : Host) (evs : list Event)
    (i : JS.str) :
  (forall m, In m (movies (session evs)) -> id m <> i) ->
  exec (toggleWatched i) (session evs) = session evs
  /\ exec (removeMovie i) (session evs) = session evs.
Proof.
  intros H. split.
  - rewrite toggleWatched_shown, (find_missing _ _ H). reflexivity.
  - rewrite removeMovie_shown. unfold without.
    rewrite (filter_keeps_all _ _ H).
    apply inSync_shown, session_inSync.
Qed.

Lemma missing_id_changes_nothing_witness :
  (forall m, In m (movies (@session Demo.halving [])) -> id m <> (JS.lit "zz"))
  /\ exec (@removeMovie Demo.halving (JS.lit "zz")) (@session Demo.halving [])
     = @session Demo.halving [].
Proof.
  assert (H : forall m, In m (movies (@session Demo.halving [])) ->
                        id m <> (JS.lit "zz")).
  { intros m Hm. vm_compute in Hm.
    destruct Hm as [<-|[<-|[<-|[]]]]; cbn; discriminate. }
  split; [exact H|].
  exact (proj2 (missing_id_changes_nothing Demo.halving [] (JS.lit "zz") H)).
Defined.

(** X13. [pickRandom] never touches the catalog, the view settings, the
    rendered list, the stats line or the hint.  With nothing visible it
    writes the "nothing to pick" message and draws no random number;
    otherwise it draws exactly one, and what it announces, if anything new,
    is the title of a visible record, with the year only when the year is
    truthy. *)
Theorem pickRandom_effect (host : Host) (st : Page) :
  let st' := exec pickRandom st in
  let visible := fst (getVisibleMovies st) in
  movies st' = movies st
  /\ currentFilter st' = currentFilter st
  /\ currentQuery st' = currentQuery st
  /\ listEl st' = listEl st
  /\ statsText st' = statsText st
  /\ formHint st' = formHint st
  /\ ((visible = [] /\ randomOut st' = NothingToPick
       /\ randomCalls st' = randomCalls st)
      \/ (visible <> [] /\ randomCalls st' = S (randomCalls st)
          /\ (randomOut st' = randomOut st
              \/ exists m,
                   In m visible
                   /\ randomOut st'
                      = Pick (title m)
                          (if truthyYear (year m)
                           then Some (toNumber (year m)) else None)))).
Proof.
  cbv zeta.
  destruct (pickRandom_cases st)
    as [[Hv E]|[(Hv & c & Hc & E)|(Hv & _ & E)]]; rewrite E;
    cbn [movies currentFilter currentQuery listEl statsText formHint
         randomOut randomCalls set_randomOut set_randomCalls];
    repeat (split; [reflexivity|]).
  - left. auto.
  - right. split; [exact Hv|]. split; [reflexivity|].
    right. exists c. split; [exact (choose_In _ _ _ Hc)|reflexivity].
  - right. split; [exact Hv|]. split; [reflexivity|]. left. reflexivity.
Qed.

(** ** Filter and search *)

Section FilterSearch.

Context {host : Host}.

Lemma filter_twice (A : Type) (p q : A -> bool) (l : list A) :
  filter p (filter q l) = filter (fun x => q x && p x) l.
Proof.
  induction l as [|a rest IH]; [reflexivity|].
  cbn [filter]. destruct (q a); cbn [filter andb]; rewrite IH; reflexivity.
Qed.

Lemma filter_split_length (A : Type) (p : A -> bool) (l : list A) :
  List.length (filter p l) + List.length (filter (fun x => negb (p x)) l)
  = List.length l.
Proof.
  induction l as [|a rest IH]; [reflexivity|].
  cbn [filter]. destruct (p a); cbn [negb List.length]; lia.
Qed.

Lemma filter_none (A : Type) (p : A -> bool) (l : list A) :
  (forall x, p x = false) -> filter p l = [].
Proof.
  intros H. induction l as [|a rest IH]; [reflexivity|].
  cbn [filter]. rewrite H. exact IH.
Qed.

Lemma visibleOf_all (q : JS.str) (ms : list Movie) :
  visibleOf (JS.lit "all") q ms
  = filter (matchesQuery (toLowerCase (JS.trim q))) ms.
Proof. reflexivity. Qed.

Lemma visibleOf_watched (q : JS.str) (ms : list Movie) :
  visibleOf (JS.lit "watched") q ms
  = filter watched (visibleOf (JS.lit "all") q ms).
Proof.
  rewrite visibleOf_all, filter_twice. unfold visibleOf.
  apply filter_ext. intros m. unfold matchesFilter.
  destruct (watched m), (matchesQuery (toLowerCase (JS.trim q)) m);
    reflexivity.
Qed.

Lemma visibleOf_unwatched (q : JS.str) (ms : list Movie) :
  visibleOf (JS.lit "unwatched") q ms
  = filter (fun m => negb (watched m)) (visibleOf (JS.lit "all") q ms).
Proof.
  rewrite visibleOf_all, filter_twice. unfold visibleOf.
  apply filter_ext. intros m. unfold matchesFilter.
  destruct (watched m), (matchesQuery (toLowerCase (JS.trim q)) m);
    reflexivity.
Qed.

(** On ASCII text, trimming and lowercasing commute. *)
Lemma toLowerCase_trim (s : JS.str) :
  asciiCase -> Ascii7.isAscii s = true ->
  toLowerCase (JS.trim s) = JS.trim (toLowerCase s).
Proof.
  intros Hcase Ha. destruct (Hcase s Ha) as [_ ->].
  assert (Ht : Ascii7.isAscii (JS.trim s) = true)
    by (apply isAscii_trimEnd, isAscii_trimStart, Ha).
  destruct (Hcase _ Ht) as [_ ->]. symmetry. apply trim_lower.
Qed.

End FilterSearch.

(** X14. For one catalog and one search text, the watched view and the
    unwatched view are the all view cut by the flag, so they split it:
    their lengths add up to the length of the all view.  A filter value
    other than these three shows nothing. *)
Theorem filters_split_the_view (host : Host) (st : Page) :
  let view v := fst (getVisibleMovies (set_currentFilter v st)) in
  view (JS.lit "watched") = filter watched (view (JS.lit "all"))
  /\ view (JS.lit "unwatched")
     = filter (fun m => negb (watched m)) (view (JS.lit "all"))
  /\ List.length (view (JS.lit "watched"))
     + List.length (view (JS.lit "unwatched"))
     = List.length (view (JS.lit "all"))
  /\ forall v,
       v <> JS.lit "all" -> v <> JS.lit "watched" ->
       v <> JS.lit "unwatched" ->
               view v = [].
Proof.
  cbv beta zeta. rewrite !getVisibleMovies_visibleOf.
  cbn [currentFilter currentQuery movies set_currentFilter].
  rewrite visibleOf_watched, visibleOf_unwatched.
  split; [reflexivity|]. split; [reflexivity|]. split.
  - apply filter_split_length.
  - intros v H1 H2 H3. rewrite getVisibleMovies_visibleOf.
    cbn [currentFilter currentQuery movies set_currentFilter].
    apply filter_none. intros m. unfold matchesFilter.
    apply eqs_neq in H1, H2, H3. rewrite H1, H2, H3. reflexivity.
Qed.

Lemma filters_split_the_view_witness :
  JS.lit "seen" <> JS.lit "all"
  /\ JS.lit "seen" <> JS.lit "watched"
  /\ JS.lit "seen" <> JS.lit "unwatched"
  /\ fst (@getVisibleMovies Demo.halving
            (set_currentFilter (JS.lit "seen") (@session Demo.halving [])))
     = [].
Proof.
  assert (H1 : (JS.lit "seen") <> (JS.lit "all")) by discriminate.
  assert (H2 : (JS.lit "seen") <> (JS.lit "watched")) by discriminate.
  assert (H3 : (JS.lit "seen") <> (JS.lit "unwatched")) by discriminate.
  split; [exact H1|]. split; [exact H2|]. split; [exact H3|].
  exact (proj2 (proj2 (proj2 (filters_split_the_view Demo.halving
                                (@session Demo.halving []))))
           (JS.lit "seen") H1 H2 H3).
Defined.

(** X15. On ASCII search texts, with case conversions that treat ASCII
    text as the standard prescribes, the search ignores letter case in the
    search text as it does in the titles: two search texts that differ in
    case only show the same records. *)
Theorem search_ignores_case (host : Host) (st : Page) (q1 q2 : JS.str) :
  asciiCase ->
  Ascii7.isAscii q1 = true -> Ascii7.isAscii q2 = true ->
  toLowerCase q1 = toLowerCase q2 ->
  fst (getVisibleMovies (set_currentQuery q1 st))
  = fst (getVisibleMovies (set_currentQuery q2 st)).
Proof.
  intros Hcase H1 H2 H. rewrite !getVisibleMovies_visibleOf.
  cbn [currentFilter currentQuery movies set_currentQuery].
  unfold visibleOf.
  rewrite (toLowerCase_trim _ Hcase H1), (toLowerCase_trim _ Hcase H2), H.
  reflexivity.
Qed.

Lemma search_ignores_case_witness :
  let host := Demo.halving in
  asciiCase
  /\ toLowerCase (JS.lit "GIANT") = toLowerCase (JS.lit "giant")
  /\ fst (getVisibleMovies (set_currentQuery (JS.lit "GIANT") (session [])))
     = fst (getVisibleMovies (set_currentQuery (JS.lit "giant") (session []))).
Proof.
  cbv zeta.
  assert (Hc : @asciiCase Demo.halving) by (intros s _; split; reflexivity).
  assert (H : @toLowerCase Demo.halving (JS.lit "GIANT")
              = @toLowerCase Demo.halving (JS.lit "giant")) by reflexivity.
  split; [exact Hc|]. split; [exact H|].
  exact (search_ignores_case Demo.halving (@session Demo.halving [])
           (JS.lit "GIANT") (JS.lit "giant") Hc eq_refl eq_refl H).
Defined.

(** ** Records over a session *)

Section Records.

Context {host : Host}.

Lemma idOfDraw_length (k : nat) : List.length (idOfDraw k) <= 8.
Proof. unfold idOfDraw, JS.slice. apply firstn_le_length. Qed.







(** When the titles submitted are ASCII text, every stored title is
    ASCII text and a fixed point of [sanitizeTitle]. *)
Lemma stored_titles_fixed (evs : list Event) :
  asciiCase -> asciiTitles evs ->
  Forall (fun m => Ascii7.isAscii (title m) = true
                   /\ sanitizeTitle (title m) = title m)
    (movies (session evs)).
Proof.
  intros Hcase. unfold session.
  assert (Hinit : Forall (fun m => Ascii7.isAscii (title m) = true
                                   /\ sanitizeTitle (title m) = title m)
                    (movies (exec main blankPage))).
  { rewrite main_exec. cbn [movies].
    repeat constructor; cbn [title];
      rewrite sanitizeTitle_titleCase by (exact Hcase || reflexivity);
      vm_compute; reflexivity. }
  revert Hinit. generalize (exec main blankPage).
  induction evs as [|ev rest IH]; intros st Hst Hevs; [exact Hst|].
  inversion Hevs as [|? ? Hev Hrest]; subst.
  cbn [run]. apply IH; [|exact Hrest].
  destruct (listener_catalog ev st)
    as [[Hm _]|[(t & y & -> & _ & _ & _ & Hm & _)
               |[(i & _ & Hm & _)|(i & _ & Hm & _)]]];
    rewrite Hm.
  - exact Hst.
  - apply Forall_app. split; [exact Hst|].
    constructor; [|constructor]. cbn [title]. split.
    + apply (sanitizeTitle_ascii _ Hcase Hev).
    + apply (sanitizeTitle_twice _ Hcase Hev).
  - apply Forall_flipFirst; [|exact Hst]. intros m H. exact H.
  - apply Forall_filter_keep, Hst.
Qed.

End Records.

(** X16. Every id in the catalog, in every page a session reaches, has at
    most eight characters: [cryptoRandomId] keeps characters 2 to 9 of the
    base-36 text, and fewer when the text is shorter. *)
Theorem catalog_ids_short (host : Host) (evs : list Event) (m : Movie) :
  In m (movies (session evs)) -> List.length (id m) <= 8.
Proof.
  intros Hm.
  destruct (ledger_session evs) as (_ & _ & _ & js & Hc & _ & _).
  assert (Hin : In (id m) (map idOfDraw js))
    by (rewrite <- Hc; apply in_map, Hm).
  apply in_map_iff in Hin. destruct Hin as (k & <- & _).
  apply idOfDraw_length.
Qed.

Lemma catalog_ids_short_witness :
  In (mkMovie (JS.lit "9") (JS.lit "Get Out") (Num (JS.ofZ 2017)) true)
     (movies (@session Demo.halving []))
  /\ List.length
       (id (mkMovie (JS.lit "9") (JS.lit "Get Out") (Num (JS.ofZ 2017)) true))
     <= 8.
Proof.
  assert (H : In
      (mkMovie (JS.lit "9") (JS.lit "Get Out") (Num (JS.ofZ 2017)) true)
                (movies (@session Demo.halving [])))
    by (vm_compute; auto).
  split; [exact H|].
  exact (catalog_ids_short Demo.halving [] _ H).
Defined.


(** X18. When every title submitted is ASCII text (and the case
    conversions treat ASCII text as the standard prescribes), every title
    in the catalog, in every page the session reaches, is in normal form:
    [sanitizeTitle] returns it unchanged, it has nothing to trim at either
    end and no two adjacent spaces. *)
Theorem stored_titles_normalized (host : Host) (evs : list Event)
    (m : Movie) :
  asciiCase -> asciiTitles evs ->
  In m (movies (session evs)) ->
  sanitizeTitle (title m) = title m
  /\ JS.trim (title m) = title m
  /\ JS.includes (title m) (JS.lit "  ") = false.
Proof.
  intros Hcase Hevs Hm. pose proof (stored_titles_fixed evs Hcase Hevs) as H.
  rewrite Forall_forall in H. destruct (H m Hm) as [Ha Hf].
  split; [exact Hf|]. rewrite <- Hf.
  destruct (sanitizeTitle_tidy (title m) Hcase Ha) as (Hs & He & Hd).
  split; [|exact Hd]. unfold JS.trim. rewrite Hs. exact He.
Qed.

Lemma stored_titles_normalized_witness :
  let host := Demo.halving in
  asciiCase
  /\ asciiTitles [Submit (JS.lit "  dUNE ") []]
  /\ In (mkMovie (JS.lit "29") (JS.lit "Dune") Null false)
        (movies (session [Submit (JS.lit "  dUNE ") []]))
  /\ sanitizeTitle (JS.lit "Dune") = JS.lit "Dune".
Proof.
  cbv zeta.
  assert (Hc : @asciiCase Demo.halving) by (intros s _; split; reflexivity).
  assert (He : asciiTitles [Submit (JS.lit "  dUNE ") []])
    by (repeat constructor).
  assert (H : In (mkMovie (JS.lit "29") (JS.lit "Dune") Null false)
                (movies (@session Demo.halving
                           [Submit (JS.lit "  dUNE ") []])))
    by (vm_compute; auto).
  split; [exact Hc|]. split; [exact He|]. split; [exact H|].
  exact (proj1 (stored_titles_normalized Demo.halving _ _ Hc He H)).
Defined.

(** X19. The stats line never shows a negative number or more watched
    records than records: after [updateStats] on any page, and in every page
    a session reaches, the watched count and the remaining count both lie
    between 0 and the total. *)
Theorem stats_within_total (host : Host) :
  (forall st,
     let s := statsText (exec updateStats st) in
     (0 <= watchedCount s <= total s)%Z /\ (0 <= remaining s <= total s)%Z)
  /\ (forall evs,
        let s := statsText (session evs) in
        (0 <= watchedCount s <= total s)%Z /\ (0 <= remaining s <= total s)%Z).
Proof.
  assert (H : forall ms,
            let s := Spec.stats ms in
            (0 <= watchedCount s <= total s)%Z
            /\ (0 <= remaining s <= total s)%Z).
  { intros ms. cbv zeta. unfold Spec.stats.
    cbn [total watchedCount remaining].
    pose proof (filter_split_length _ watched ms). lia. }
  split.
  - intros st. cbv zeta. rewrite updateStats_exec. apply H.
  - intros evs. cbv zeta. destruct (session_inSync evs) as [_ ->]. apply H.
Qed.
